(** * Keyboard commanding: wtf.events.Keyboard and wtf.events.KeyboardScope

    A shallow embedding of [src/wtf/events/keyboard.js].  JavaScript objects
    that are compared by identity (callback functions, scope objects,
    windows, keyboards) are represented by their identity, a natural number.
    Methods that mutate [this] are state transformers that also return how
    the call completed: normally, or by throwing. A call that throws keeps
    the mutations it made before the throw, as in JavaScript. *)

From Stdlib Require Import String Ascii.
From stdpp Require Import base option list gmap strings fin_maps.

Open Scope string_scope.
Open Scope list_scope.

#[local] Set Warnings "-clear-no-such-hyp".

(** ** JavaScript values used by the file *)

(** Identity of a function object passed as [callback]. *)
Definition Callback := nat.

(** Identity of an object passed as [opt_scope]; [None] is [undefined]. *)
Definition ScopeObj := nat.

(** A thrown value. *)
Definition Error := string.

(** How a call completed. *)
Inductive Completion :=
| Normal
| Throw (e : Error).

#[global] Instance Completion_eq_dec : EqDecision Completion.
Proof. solve_decision. Defined.

(** ** [String.prototype.split] with a one-character separator

    [split_on sep s] is [s.split(sep)]: the pieces between the separators,
    in order, empty pieces included; the result is never empty
    ([''.split('|')] is [['']]). *)
Fixpoint split_on (sep : ascii) (s : string) : list string :=
  match s with
  | EmptyString => [EmptyString]
  | String c s' =>
      if Ascii.eqb c sep then EmptyString :: split_on sep s'
      else match split_on sep s' with
           | [] => [String c EmptyString]
           | seg :: rest => String c seg :: rest
           end
  end.

(** [Array.prototype.join] with a one-character separator. *)
Fixpoint join_with (sep : ascii) (l : list string) : string :=
  match l with
  | [] => EmptyString
  | [s] => s
  | s :: rest => s +:+ String sep (join_with sep rest)
  end.

(** The separator of multi shortcuts, ['|']. *)
Definition bar : ascii := "|"%char.

(** [contains_char c s]: [c] occurs in [s]. *)
Fixpoint contains_char (c : ascii) (s : string) : bool :=
  match s with
  | EmptyString => false
  | String c' s' => Ascii.eqb c' c || contains_char c s'
  end.

(** ** The listener table of wtf.events.EventEmitter *)

(** One entry of a listener list: the callback and the scope it is called
    with. Two entries are the same listener when both identities agree. *)
Record EventListener := mkListener {
  callback_ : Callback;
  scope_ : option ScopeObj
}.

#[global] Instance EventListener_eq_dec : EqDecision EventListener.
Proof. solve_decision. Defined.

(** [eventTypes_]: event name to the listeners of that event, in the order
    they were added. *)
Abbreviation EventTypes := (gmap string (list EventListener)).

(** The listeners bound to [eventType]; none when the name is unknown. *)
Definition listenersOf (m : EventTypes) (eventType : string) : list EventListener :=
  default [] (m !! eventType).

(** [remove_first x l] drops the first entry of [l] equal to [x]. *)
Fixpoint remove_first (x : EventListener) (l : list EventListener) : list EventListener :=
  match l with
  | [] => []
  | y :: l' => if decide (y = x) then l' else y :: remove_first x l'
  end.

(** Number of entries of [l] equal to [x]. *)
Definition count_listener (x : EventListener) (l : list EventListener) : nat :=
  length (filter (λ y, y = x) l).

(** Number of entries of [ds] equal to [d]. *)
Definition occurrences (d : string) (ds : list string) : nat :=
  length (filter (λ x, x = d) ds).

(** Modelled from the spec: [wtf.events.EventEmitter.prototype.hasListeners]
    is not among the sources. The spec (4.1) reads its negation as "the
    listener set for that descriptor is currently empty". *)
Definition hasListeners (eventType : string) (m : EventTypes) : bool :=
  match listenersOf m eventType with
  | [] => false
  | _ :: _ => true
  end.

(** Modelled from the spec: [wtf.events.EventEmitter.prototype.addListener]
    is not among the sources. The spec (4.1) has it add the triple to the
    set, a second identical add being "a duplicate entry in the set", and
    listeners fire "in registration order": the entry goes to the end. *)
Definition addListener (eventType : string) (callback : Callback)
    (opt_scope : option ScopeObj) (m : EventTypes) : EventTypes :=
  <[eventType := listenersOf m eventType ++ [mkListener callback opt_scope]]> m.

(** Modelled from the spec: [wtf.events.EventEmitter.prototype.removeListener]
    is not among the sources. The spec (4.1, 7) has it remove the matching
    triple, matched by identity of callback plus scope (3), and do nothing,
    without error, when there is none. *)
Definition removeListener (eventType : string) (callback : Callback)
    (opt_scope : option ScopeObj) (m : EventTypes) : EventTypes :=
  match m !! eventType with
  | None => m
  | Some l => <[eventType := remove_first (mkListener callback opt_scope) l]> m
  end.

(** ** The host key handler, goog.ui.KeyboardShortcutHandler

    The handler belongs to the host library. It is modelled by what the
    file relies on: the set of identifiers it currently intercepts, and the
    record of the calls it received, oldest first. *)
Inductive HostCall :=
| RegisterShortcut (identifier shortcut : string)
| UnregisterShortcut (shortcut : string).

#[global] Instance HostCall_eq_dec : EqDecision HostCall.
Proof. solve_decision. Defined.

Record KeyboardShortcutHandler := mkHandler {
  shortcuts_ : gset string;
  calls : list HostCall
}.

(** [new goog.ui.KeyboardShortcutHandler(...)]: nothing intercepted yet. *)
Definition newHandler : KeyboardShortcutHandler := mkHandler ∅ [].

(** ** wtf.events.Keyboard *)

(** Identity of a JavaScript object, and of a window in particular. *)
Definition Object := nat.
Definition Window := Object.

Record Keyboard := mkKeyboard {
  (** the window the keyboard was made for; its document is the element the
      key handler listens on *)
  targetWindow_ : Window;
  eventTypes_ : EventTypes;
  keyHandler_ : KeyboardShortcutHandler
}.

(** A method of [Keyboard] returning nothing. *)
Definition Method := Keyboard → Keyboard * Completion.

(** Sequencing of statements: a throw ends the sequence. *)
Definition andThen (f g : Method) : Method :=
  λ k, match f k with
       | (k', Normal) => g k'
       | (k', Throw e) => (k', Throw e)
       end.

(** [for (var n = 0; n < xs.length; n++) body(xs[n])]. *)
Fixpoint forEach {A : Type} (body : A → Method) (xs : list A) : Method :=
  match xs with
  | [] => λ k, (k, Normal)
  | x :: xs' => andThen (body x) (forEach body xs')
  end.

Module Keyboard.

Section WithHost.

(** The host's reading of a shortcut string: [None] when it accepts the
    string, [Some e] when it rejects it by throwing [e]. *)
Variable parseError : string → option Error.

(** [keyHandler_.registerShortcut(identifier, shortcut)], of the host
    library, by the contract the spec gives it (6, 7): the host starts to
    intercept the combination, or rejects the string by throwing, and then
    registers nothing. The call is recorded either way. *)
Definition registerShortcut (identifier shortcut : string) : Method :=
  λ k,
    let h := keyHandler_ k in
    let logged := calls h ++ [RegisterShortcut identifier shortcut] in
    match parseError shortcut with
    | Some e => (mkKeyboard (targetWindow_ k) (eventTypes_ k) (mkHandler (shortcuts_ h) logged), Throw e)
    | None =>
        (mkKeyboard (targetWindow_ k) (eventTypes_ k) (mkHandler ({[identifier]} ∪ shortcuts_ h) logged),
         Normal)
    end.

(** [keyHandler_.unregisterShortcut(shortcut)], of the host library, by
    the contract the spec gives it (6): the host stops intercepting the
    combination; the spec names no failure for it, so it returns. The
    shortcut was registered under its own text as identifier. *)
Definition unregisterShortcut (shortcut : string) : Method :=
  λ k,
    let h := keyHandler_ k in
    (mkKeyboard (targetWindow_ k) (eventTypes_ k)
       (mkHandler (shortcuts_ h ∖ {[shortcut]}) (calls h ++ [UnregisterShortcut shortcut])),
     Normal).

(** The inherited listener methods, as methods of the keyboard. *)
Definition addListenerM (eventType : string) (callback : Callback)
    (opt_scope : option ScopeObj) : Method :=
  λ k, (mkKeyboard (targetWindow_ k) (addListener eventType callback opt_scope (eventTypes_ k))
          (keyHandler_ k), Normal).

Definition removeListenerM (eventType : string) (callback : Callback)
    (opt_scope : option ScopeObj) : Method :=
  λ k, (mkKeyboard (targetWindow_ k) (removeListener eventType callback opt_scope (eventTypes_ k))
          (keyHandler_ k), Normal).

(** The body of the loop of [addShortcut]. *)
Definition addShortcut_body (callback : Callback) (opt_scope : option ScopeObj)
    (shortcut : string) : Method :=
  λ k,
    andThen
      (if negb (hasListeners shortcut (eventTypes_ k))
       then registerShortcut shortcut shortcut
       else λ k0, (k0, Normal))
      (addListenerM shortcut callback opt_scope) k.

(** [wtf.events.Keyboard.prototype.addShortcut]. *)
Definition addShortcut (shortcut : string) (callback : Callback)
    (opt_scope : option ScopeObj) : Method :=
  forEach (addShortcut_body callback opt_scope) (split_on bar shortcut).

(** The body of the loop of [removeShortcut]. *)
Definition removeShortcut_body (callback : Callback) (opt_scope : option ScopeObj)
    (shortcut : string) : Method :=
  andThen (removeListenerM shortcut callback opt_scope)
    (λ k, if negb (hasListeners shortcut (eventTypes_ k))
          then unregisterShortcut shortcut k
          else (k, Normal)).

(** [wtf.events.Keyboard.prototype.removeShortcut]. *)
Definition removeShortcut (shortcut : string) (callback : Callback)
    (opt_scope : option ScopeObj) : Method :=
  forEach (removeShortcut_body callback opt_scope) (split_on bar shortcut).

(** A call of one of the two public methods, and a sequence of them. The
    caller may catch what a call throws and go on: the next call runs on
    the state the previous one left. *)
Inductive Call :=
| AddShortcut (shortcut : string) (callback : Callback) (opt_scope : option ScopeObj)
| RemoveShortcut (shortcut : string) (callback : Callback) (opt_scope : option ScopeObj).

Definition call (c : Call) : Method :=
  match c with
  | AddShortcut shortcut callback opt_scope => addShortcut shortcut callback opt_scope
  | RemoveShortcut shortcut callback opt_scope => removeShortcut shortcut callback opt_scope
  end.

Definition callAll (cs : list Call) (k : Keyboard) : Keyboard :=
  foldl (λ k0 c, (call c k0).1) k cs.

End WithHost.

(** The listeners bound to a descriptor, and whether the host intercepts it. *)
Definition listeners (k : Keyboard) (d : string) : list EventListener :=
  listenersOf (eventTypes_ k) d.

Definition registered (k : Keyboard) (d : string) : Prop :=
  d ∈ shortcuts_ (keyHandler_ k).

(** How many times the host received the call [c] so far. *)
Definition callCount (c : HostCall) (k : Keyboard) : nat :=
  length (filter (λ c', c' = c) (calls (keyHandler_ k))).

(** Invariant I1. *)
Definition I1 (k : Keyboard) : Prop :=
  ∀ d, registered k d ↔ listeners k d ≠ [].

(** [new wtf.events.Keyboard(targetWindow)]: no listener, and a new key
    handler on the document of the window. *)
Definition create (targetWindow : Window) : Keyboard :=
  mkKeyboard targetWindow ∅ newHandler.

(** What a run of the key handler's event shows from outside. *)
Inductive Observation :=
| Emitted (eventType : string)
| Invoked (eventType : string) (l : EventListener)
| Reported (e : Error).

#[global] Instance Observation_eq_dec : EqDecision Observation.
Proof. solve_decision. Defined.

(** [goog.ui.KeyboardShortcutEvent]: the identifier the shortcut was
    registered under. *)
Record KeyboardShortcutEvent := mkEvent { identifier : string }.

Section Dispatch.

(** The rest of the program's state, and what calling a listener does: the
    callback runs on the keyboard and the program state, may change both
    (it may add and remove shortcuts), and returns or throws. *)
Context {App : Type}.
Variable invoke : EventListener → Keyboard * App → (Keyboard * App) * Completion.

(** Modelled from the spec: the fan-out of
    [wtf.events.EventEmitter.prototype.emitEvent], which is not among the
    sources. The spec (4.1, 5, 7) has every listener invoked once, in
    registration order, over a snapshot of the listener set, an exception of
    one listener being caught and reported without ending the delivery. *)
Fixpoint fanOut (eventType : string) (snapshot : list EventListener)
    (w : Keyboard * App) : (Keyboard * App) * list Observation :=
  match snapshot with
  | [] => (w, [])
  | l :: rest =>
      let '(w1, c) := invoke l w in
      let '(w2, obs) := fanOut eventType rest w1 in
      (w2, Invoked eventType l
             :: match c with Normal => [] | Throw e => [Reported e] end ++ obs)
  end.

(** Modelled from the spec: [wtf.events.EventEmitter.prototype.emitEvent],
    not among the sources: one event named [eventType], delivered to the
    listeners bound to that name when it is emitted. *)
Definition emitEvent (eventType : string) (w : Keyboard * App)
    : (Keyboard * App) * list Observation :=
  let '(w', obs) := fanOut eventType (listenersOf (eventTypes_ w.1) eventType) w in
  (w', Emitted eventType :: obs).

(** [wtf.events.Keyboard.prototype.keyPressed_]. *)
Definition keyPressed_ (e : KeyboardShortcutEvent) (w : Keyboard * App)
    : (Keyboard * App) * list Observation :=
  emitEvent (identifier e) w.

End Dispatch.

(** The listeners invoked in a run, in order. *)
Definition invocations (obs : list Observation) : list (string * EventListener) :=
  omap (λ o, match o with Invoked d l => Some (d, l) | _ => None end) obs.

(** The events emitted in a run, in order. *)
Definition emissions (obs : list Observation) : list string :=
  omap (λ o, match o with Emitted d => Some d | _ => None end) obs.

(** ** The keyboards of the process, by window *)

(** The part of the JavaScript heap the lookup touches. *)
Record Process := mkProcess {
  (** [goog.uidCounter_] *)
  uidCounter_ : nat;
  (** the [goog.UID_PROPERTY_] property of each object that has one *)
  uidProperty_ : gmap Object nat;
  (** the [wtf.events.Keyboard] objects allocated so far; the identity of a
      keyboard is its position *)
  keyboards : list Keyboard;
  (** [wtf.events.Keyboard.keyboardInstances_] *)
  keyboardInstances_ : gmap nat nat
}.

(** The process before any of this code ran. *)
Definition start : Process := mkProcess 0 ∅ [] ∅.

(** [goog.getUid(obj)], of the host library:
    [obj[UID] || (obj[UID] = ++goog.uidCounter_)]. *)
Definition getUid (obj : Object) (p : Process) : nat * Process :=
  match uidProperty_ p !! obj with
  | Some uid => (uid, p)
  | None =>
      let uid := S (uidCounter_ p) in
      (uid, mkProcess uid (<[obj := uid]> (uidProperty_ p)) (keyboards p)
              (keyboardInstances_ p))
  end.

(** [new wtf.events.Keyboard(targetWindow)] as an allocation: the new
    object and the heap that holds it. *)
Definition newKeyboard (targetWindow : Window) (p : Process) : nat * Process :=
  (length (keyboards p),
   mkProcess (uidCounter_ p) (uidProperty_ p)
     (keyboards p ++ [create targetWindow]) (keyboardInstances_ p)).

Section WithGlobal.

(** [goog.global], the window the script runs in. *)
Variable global : Window.

(** [wtf.events.Keyboard.getWindowKeyboard]. *)
Definition getWindowKeyboard (opt_window : option Window) (p : Process)
    : nat * Process :=
  let targetWindow := default global opt_window in
  let '(uid, p1) := getUid targetWindow p in
  match keyboardInstances_ p1 !! uid with
  | Some keyboard => (keyboard, p1)
  | None =>
      let '(keyboard, p2) := newKeyboard targetWindow p1 in
      (keyboard,
       mkProcess (uidCounter_ p2) (uidProperty_ p2) (keyboards p2)
         (<[uid := keyboard]> (keyboardInstances_ p2)))
  end.

(** What code of the process may do to this part of the heap. *)
Inductive Action :=
| GetWindowKeyboard (opt_window : option Window)
| GetUid (obj : Object)
| NewKeyboard (targetWindow : Window).

Definition perform (a : Action) (p : Process) : Process :=
  match a with
  | GetWindowKeyboard opt_window => (getWindowKeyboard opt_window p).2
  | GetUid obj => (getUid obj p).2
  | NewKeyboard targetWindow => (newKeyboard targetWindow p).2
  end.

Definition performAll (acts : list Action) (p : Process) : Process :=
  foldl (λ q a, perform a q) p acts.

End WithGlobal.

(** The keyboard [keyboard] is cached for the object [obj]: the object
    carries a uid and [keyboardInstances_] maps that uid to the keyboard. *)
Definition cached (p : Process) (obj : Object) (keyboard : nat) : Prop :=
  ∃ uid, uidProperty_ p !! obj = Some uid
         ∧ keyboardInstances_ p !! uid = Some keyboard.

(** What holds of every process this code ran in: uids are between 1 and
    the counter and no two objects share one; keyboards are cached under
    uids that were handed out, are allocated, and no two uids share one. *)
Definition consistent (p : Process) : Prop :=
  (∀ obj uid, uidProperty_ p !! obj = Some uid → (1 ≤ uid ≤ uidCounter_ p)%nat)
  ∧ (∀ obj1 obj2 uid, uidProperty_ p !! obj1 = Some uid →
       uidProperty_ p !! obj2 = Some uid → obj1 = obj2)
  ∧ (∀ uid keyboard, keyboardInstances_ p !! uid = Some keyboard →
       (1 ≤ uid ≤ uidCounter_ p)%nat ∧ (keyboard < length (keyboards p))%nat)
  ∧ (∀ uid1 uid2 keyboard, keyboardInstances_ p !! uid1 = Some keyboard →
       keyboardInstances_ p !! uid2 = Some keyboard → uid1 = uid2).

(** [p'] knows every uid and every cached keyboard that [p] knows. *)
Definition grows (p p' : Process) : Prop :=
  uidProperty_ p ⊆ uidProperty_ p' ∧ keyboardInstances_ p ⊆ keyboardInstances_ p'.

End Keyboard.

(** ** wtf.events.KeyboardScope *)

(** A recorded listener tuple [[shortcut, callback, scope]]. *)
Definition ListenerTuple : Type := string * Callback * option ScopeObj.

(** The scope's own fields. [keyboard_] is a reference to a keyboard that
    other code shares: the methods below take the state of that keyboard and
    return it with the scope. *)
Record KeyboardScope := mkScope {
  listeners_ : list ListenerTuple;
  disposed_ : bool
}.

Module KeyboardScope.

Section WithHost.

Variable parseError : string → option Error.

Definition ScopeMethod := KeyboardScope * Keyboard → (KeyboardScope * Keyboard) * Completion.

(** [new wtf.events.KeyboardScope(keyboard)]. *)
Definition create : KeyboardScope := mkScope [] false.

(** [wtf.events.KeyboardScope.prototype.addShortcut]: the tuple is pushed
    before the keyboard is called. *)
Definition addShortcut (shortcut : string) (callback : Callback)
    (opt_scope : option ScopeObj) : ScopeMethod :=
  λ '(s, k),
    let s' := mkScope (listeners_ s ++ [(shortcut, callback, opt_scope)]) (disposed_ s) in
    let '(k', c) := Keyboard.addShortcut parseError shortcut callback opt_scope k in
    ((s', k'), c).

(** [wtf.events.KeyboardScope.prototype.disposeInternal]. *)
Definition disposeInternal : ScopeMethod :=
  λ '(s, k),
    let '(k', c) :=
      forEach (λ listener : ListenerTuple,
                 Keyboard.removeShortcut listener.1.1 listener.1.2 listener.2)
        (listeners_ s) k in
    ((s, k'), c).

(** [goog.Disposable.prototype.dispose], of the host library: the first call
    runs [disposeInternal], later calls do nothing. *)
Definition dispose : ScopeMethod :=
  λ '(s, k),
    if disposed_ s then ((s, k), Normal)
    else disposeInternal (mkScope (listeners_ s) true, k).

End WithHost.

(** The listeners that disposal asks the keyboard to remove from the list
    of [d], in the order it asks: for each recorded tuple, its listener once
    per segment of its shortcut equal to [d]. *)
Definition removed (d : string) (ts : list ListenerTuple) : list EventListener :=
  flat_map (λ t : ListenerTuple,
              replicate (occurrences d (split_on bar t.1.1)) (mkListener t.1.2 t.2))
    ts.

End KeyboardScope.

(** [strip rs l]: [l] after removing, for each entry of [rs] in turn, its
    first match. *)
Definition strip (rs : list EventListener) (l : list EventListener)
    : list EventListener :=
  foldl (λ acc r, remove_first r acc) l rs.

(** ** Callers *)

(** A caller that adds the tuples [ts] through a scope, one call of the
    scope's [addShortcut] after the other; a throw ends the sequence. *)
Fixpoint addEach (parseError : string → option Error) (ts : list ListenerTuple)
    (sk : KeyboardScope * Keyboard) : (KeyboardScope * Keyboard) * Completion :=
  match ts with
  | [] => (sk, Normal)
  | t :: ts' =>
      match KeyboardScope.addShortcut parseError t.1.1 t.1.2 t.2 sk with
      | (sk', Normal) => addEach parseError ts' sk'
      | (sk', Throw e) => (sk', Throw e)
      end
  end.

(** The host's side of a record of calls, replayed from the set [active] of
    identifiers it intercepts: a registration of an identifier that is
    already intercepted is a conflict, [None]; a rejected registration
    changes nothing. *)
Fixpoint replay (parseError : string → option Error) (cs : list HostCall)
    (active : gset string) : option (gset string) :=
  match cs with
  | [] => Some active
  | RegisterShortcut identifier shortcut :: cs' =>
      if decide (identifier ∈ active) then None
      else replay parseError cs'
             (match parseError shortcut with
              | None => {[identifier]} ∪ active
              | Some _ => active
              end)
  | UnregisterShortcut shortcut :: cs' =>
      replay parseError cs' (active ∖ {[shortcut]})
  end.

(** Every cached keyboard is an allocated keyboard that was made for the
    window it is cached for. *)
Definition madeForWindow (p : Keyboard.Process) : Prop :=
  ∀ obj keyboard, Keyboard.cached p obj keyboard →
    ∃ K, Keyboard.keyboards p !! keyboard = Some K ∧ targetWindow_ K = obj.

(** * Properties *)

(** ** The listener table *)

Lemma listenersOf_addListener_eq e cb sc (m : EventTypes) :
  listenersOf (addListener e cb sc m) e = listenersOf m e ++ [mkListener cb sc].
Proof. unfold addListener, listenersOf at 1. by rewrite lookup_insert_eq. Qed.

Lemma listenersOf_addListener_ne e e' cb sc (m : EventTypes) :
  e ≠ e' → listenersOf (addListener e cb sc m) e' = listenersOf m e'.
Proof. intros Hne. unfold addListener, listenersOf at 1 3. by rewrite lookup_insert_ne. Qed.

Lemma listenersOf_removeListener_eq e cb sc (m : EventTypes) :
  listenersOf (removeListener e cb sc m) e
  = remove_first (mkListener cb sc) (listenersOf m e).
Proof.
  unfold removeListener, listenersOf.
  destruct (m !! e) as [l|] eqn:Hl.
  - by rewrite lookup_insert_eq.
  - by rewrite Hl.
Qed.

Lemma listenersOf_removeListener_ne e e' cb sc (m : EventTypes) :
  e ≠ e' → listenersOf (removeListener e cb sc m) e' = listenersOf m e'.
Proof.
  intros Hne. unfold removeListener, listenersOf.
  destruct (m !! e); [by rewrite lookup_insert_ne | done].
Qed.

Lemma hasListeners_true e (m : EventTypes) :
  hasListeners e m = true ↔ listenersOf m e ≠ [].
Proof. unfold hasListeners. by destruct (listenersOf m e). Qed.

Lemma hasListeners_false e (m : EventTypes) :
  hasListeners e m = false ↔ listenersOf m e = [].
Proof. unfold hasListeners. by destruct (listenersOf m e). Qed.

Lemma remove_first_absent x (l : list EventListener) :
  x ∉ l → remove_first x l = l.
Proof.
  induction l as [|y l IH]; [done|].
  intros Hx. apply not_elem_of_cons in Hx as [Hne Hx]. simpl.
  destruct (decide (y = x)); [congruence|]. by rewrite IH.
Qed.

Lemma removeListener_absent e cb sc (m : EventTypes) :
  mkListener cb sc ∉ listenersOf m e → removeListener e cb sc m = m.
Proof.
  unfold removeListener, listenersOf. destruct (m !! e) as [l|] eqn:Hl; [|done].
  simpl. intros Hx. rewrite remove_first_absent by done. by apply insert_id.
Qed.

Lemma filter_remove_first_ne x y (l : list EventListener) :
  x ≠ y → filter (λ z, z = y) (remove_first x l) = filter (λ z, z = y) l.
Proof.
  intros Hne. induction l as [|z l IH]; [done|]. simpl.
  destruct (decide (z = x)) as [->|Hz].
  - by rewrite filter_cons_False.
  - by rewrite !filter_cons, IH.
Qed.

Lemma count_remove_first_ne x y (l : list EventListener) :
  x ≠ y → count_listener y (remove_first x l) = count_listener y l.
Proof. intros. unfold count_listener. by rewrite filter_remove_first_ne. Qed.

Lemma count_remove_first_eq x (l : list EventListener) :
  count_listener x (remove_first x l) = pred (count_listener x l).
Proof.
  unfold count_listener. induction l as [|z l IH]; [done|]. simpl.
  destruct (decide (z = x)) as [->|Hz].
  - by rewrite filter_cons_True.
  - by rewrite !filter_cons_False.
Qed.

(** ** Sequencing *)

Lemma forEach_preserves {A} (P : Keyboard → Prop) (body : A → Method) xs :
  (∀ x k, P k → P (body x k).1) → ∀ k, P k → P (forEach body xs k).1.
Proof.
  intros Hbody. induction xs as [|x xs IH]; intros k Hk; [done|].
  simpl. unfold andThen. specialize (Hbody x k Hk).
  destruct (body x k) as [k' [|e]]; [by apply IH | done].
Qed.

(** ** The loop bodies, case by case *)

Lemma count_snoc (c c' : HostCall) l :
  length (filter (λ c0, c0 = c) (l ++ [c']))
  = length (filter (λ c0, c0 = c) l) + (if decide (c' = c) then 1 else 0).
Proof.
  rewrite filter_app, length_app. f_equal.
  rewrite filter_cons. by destruct (decide (c' = c)).
Qed.

(** What one round of the loop of [removeShortcut] does. *)
Lemma removeShortcut_body_cases cb sc x k :
  let r := Keyboard.removeShortcut_body cb sc x k in
  let m := removeListener x cb sc (eventTypes_ k) in
  (listenersOf m x ≠ [] ∧
   r = (mkKeyboard (targetWindow_ k) m (keyHandler_ k), Normal))
  ∨ (listenersOf m x = [] ∧
     r = (mkKeyboard (targetWindow_ k) m
            (mkHandler (shortcuts_ (keyHandler_ k) ∖ {[x]})
               (calls (keyHandler_ k) ++ [UnregisterShortcut x])), Normal)).
Proof.
  unfold Keyboard.removeShortcut_body, andThen, Keyboard.unregisterShortcut,
    Keyboard.removeListenerM. simpl.
  destruct (hasListeners x (removeListener x cb sc (eventTypes_ k))) eqn:Hh; simpl.
  - left. split; [by apply hasListeners_true | done].
  - right. split; [by apply hasListeners_false | done].
Qed.

Lemma removeShortcut_body_I1 cb sc x k :
  Keyboard.I1 k → Keyboard.I1 (Keyboard.removeShortcut_body cb sc x k).1.
Proof.
  intros HI.
  destruct (removeShortcut_body_cases cb sc x k) as [[Hx ->]|[Hx ->]];
    intros d; unfold Keyboard.registered, Keyboard.listeners; simpl;
    specialize (HI d); unfold Keyboard.registered, Keyboard.listeners in HI.
  - destruct (decide (x = d)) as [->|Hne].
    + split; [done|]. intros _. apply HI. intros Hnil. apply Hx.
      by rewrite listenersOf_removeListener_eq, Hnil.
    + by rewrite listenersOf_removeListener_ne.
  - destruct (decide (x = d)) as [->|Hne].
    + split; [set_solver | done].
    + rewrite listenersOf_removeListener_ne by done. rewrite <- HI. set_solver.
Qed.

Lemma create_I1 w : Keyboard.I1 (Keyboard.create w).
Proof.
  intros d. unfold Keyboard.registered, Keyboard.listeners, listenersOf. simpl.
  rewrite lookup_empty. simpl. set_solver.
Qed.

(** Rounds of [removeShortcut] never register anything and never take a
    call back from the host's record. *)
Lemma removeShortcut_unregistered cb sc d segs k :
  let k' := (forEach (Keyboard.removeShortcut_body cb sc) segs k).1 in
(Keyboard.callCount (UnregisterShortcut d) k
   ≤ Keyboard.callCount (UnregisterShortcut d) k')%nat
  ∧ (¬ Keyboard.registered k d → ¬ Keyboard.registered k' d).
Proof.
  simpl.
  apply (forEach_preserves (λ k',
    (Keyboard.callCount (UnregisterShortcut d) k
     ≤ Keyboard.callCount (UnregisterShortcut d) k')%nat
    ∧ (¬ Keyboard.registered k d → ¬ Keyboard.registered k' d))); [|done].
  intros x k1 [Hc Hr].
  destruct (removeShortcut_body_cases cb sc x k1) as [[Hx ->]|[Hx ->]];
    unfold Keyboard.callCount, Keyboard.registered in *; simpl; [done|].
  rewrite count_snoc. split; [lia|set_solver].
Qed.

(** The call of [removeShortcut] that empties the listeners of [d]
    unregisters [d] from the host. *)
Lemma removeShortcut_last cb sc d segs k :
  Keyboard.listeners k d ≠ [] →
  let k' := (forEach (Keyboard.removeShortcut_body cb sc) segs k).1 in
  Keyboard.listeners k' d = [] →
(Keyboard.callCount (UnregisterShortcut d) k
   < Keyboard.callCount (UnregisterShortcut d) k')%nat
  ∧ ¬ Keyboard.registered k' d.
Proof.
  simpl. revert k. induction segs as [|x segs IH]; intros k Hd Hd'; [done|].
  simpl in *. unfold andThen in *.
  destruct (removeShortcut_body_cases cb sc x k) as [[Hx Hr]|[Hx Hr]];
    simpl in Hr; rewrite Hr in *; clear Hr.
  - match goal with |- context [forEach _ segs ?k1] => specialize (IH k1) end.
    apply IH; [|done]. unfold Keyboard.listeners in *. simpl.
    destruct (decide (x = d)) as [->|Hne]; [done|].
    by rewrite listenersOf_removeListener_ne.
  - destruct (decide (x = d)) as [->|Hne].
    + match goal with |- context [forEach _ segs ?k1] =>
        destruct (removeShortcut_unregistered cb sc d segs k1) as [Hc Hreg] end.
      split.
      * eapply Nat.lt_le_trans; [|exact Hc].
        unfold Keyboard.callCount. simpl. rewrite count_snoc.
        rewrite decide_True by done. lia.
      * apply Hreg. unfold Keyboard.registered. simpl. set_solver.
    + match goal with |- context [forEach _ segs ?k1] => specialize (IH k1) end.
      unfold Keyboard.listeners in *. simpl in IH.
      rewrite listenersOf_removeListener_ne in IH by done.
      destruct (IH Hd Hd') as [Hc Hreg]. split; [|done].
      eapply Nat.le_lt_trans; [|exact Hc].
      unfold Keyboard.callCount. simpl. rewrite count_snoc. lia.
Qed.

Section AddShortcutFacts.

Variable parseError : string → option Error.

(** What one round of the loop of [addShortcut] does. *)
Lemma addShortcut_body_cases cb sc x k :
  let r := Keyboard.addShortcut_body parseError cb sc x k in
  (Keyboard.listeners k x ≠ [] ∧
   r = (mkKeyboard (targetWindow_ k) (addListener x cb sc (eventTypes_ k))
          (keyHandler_ k), Normal))
  ∨ (Keyboard.listeners k x = [] ∧ ∃ e, parseError x = Some e ∧
     r = (mkKeyboard (targetWindow_ k) (eventTypes_ k)
            (mkHandler (shortcuts_ (keyHandler_ k))
               (calls (keyHandler_ k) ++ [RegisterShortcut x x])), Throw e))
  ∨ (Keyboard.listeners k x = [] ∧ parseError x = None ∧
     r = (mkKeyboard (targetWindow_ k) (addListener x cb sc (eventTypes_ k))
            (mkHandler ({[x]} ∪ shortcuts_ (keyHandler_ k))
               (calls (keyHandler_ k) ++ [RegisterShortcut x x])), Normal)).
Proof.
  unfold Keyboard.addShortcut_body, andThen, Keyboard.registerShortcut,
    Keyboard.addListenerM, Keyboard.listeners. simpl.
  destruct (hasListeners x (eventTypes_ k)) eqn:Hh; simpl.
  - left. split; [by apply hasListeners_true | done].
  - right. apply hasListeners_false in Hh.
    destruct (parseError x) as [e|] eqn:He; simpl.
    + left. eauto.
    + right. eauto.
Qed.

Lemma addShortcut_body_I1 cb sc x k :
  Keyboard.I1 k → Keyboard.I1 (Keyboard.addShortcut_body parseError cb sc x k).1.
Proof.
  intros HI.
  destruct (addShortcut_body_cases cb sc x k) as [[Hx ->]|[(Hx & e & He & ->)|(Hx & He & ->)]];
    intros d; unfold Keyboard.registered, Keyboard.listeners; simpl;
    specialize (HI d); unfold Keyboard.registered, Keyboard.listeners in HI.
  - destruct (decide (x = d)) as [->|Hne].
    + rewrite listenersOf_addListener_eq. split; [intros _|intros _; by apply HI].
      intros H. by apply app_eq_nil in H as [_ ?].
    + by rewrite listenersOf_addListener_ne.
  - done.
  - destruct (decide (x = d)) as [->|Hne].
    + rewrite listenersOf_addListener_eq. split; [intros _|set_solver].
      intros H. by apply app_eq_nil in H as [_ ?].
    + rewrite listenersOf_addListener_ne by done. rewrite <- HI. set_solver.
Qed.

(** Once [d] has listeners, rounds of [addShortcut] leave it so, keep it
    registered and never register it again. *)
Lemma addShortcut_bound cb sc d segs k :
  Keyboard.listeners k d ≠ [] →
  let k' := (forEach (Keyboard.addShortcut_body parseError cb sc) segs k).1 in
  Keyboard.listeners k' d ≠ []
  ∧ Keyboard.callCount (RegisterShortcut d d) k'
    = Keyboard.callCount (RegisterShortcut d d) k
  ∧ (Keyboard.registered k d → Keyboard.registered k' d).
Proof.
  intros Hd. simpl.
  apply (forEach_preserves (λ k',
    Keyboard.listeners k' d ≠ []
    ∧ Keyboard.callCount (RegisterShortcut d d) k'
      = Keyboard.callCount (RegisterShortcut d d) k
    ∧ (Keyboard.registered k d → Keyboard.registered k' d))); [|done].
  clear Hd. intros x k1 (Hl & Hc & Hr).
  destruct (addShortcut_body_cases cb sc x k1)
    as [[Hx ->]|[(Hx & e & He & ->)|(Hx & He & ->)]];
    unfold Keyboard.listeners, Keyboard.registered in *; simpl.
  - split; [|done]. destruct (decide (x = d)) as [->|Hne].
    + rewrite listenersOf_addListener_eq. intros H. by apply app_eq_nil in H as [_ ?].
    + by rewrite listenersOf_addListener_ne.
  - unfold Keyboard.callCount in *. simpl. rewrite count_snoc.
    destruct (decide (RegisterShortcut x x = RegisterShortcut d d)) as [[= ->]|_];
      [done|]. split; [done|]. split; [lia|done].
  - assert (x ≠ d) by congruence.
    unfold Keyboard.callCount in *. simpl. rewrite count_snoc.
    rewrite listenersOf_addListener_ne by done.
    destruct (decide (RegisterShortcut x x = RegisterShortcut d d)) as [[= ->]|_];
      [done|]. split; [done|]. split; [lia|set_solver].
Qed.

(** The call of [addShortcut] that gives [d] its first listener registers
    [d] with the host, once. *)
Lemma addShortcut_first cb sc d segs k :
  Keyboard.listeners k d = [] →
  let k' := (forEach (Keyboard.addShortcut_body parseError cb sc) segs k).1 in
  Keyboard.listeners k' d ≠ [] →
  Keyboard.callCount (RegisterShortcut d d) k'
  = S (Keyboard.callCount (RegisterShortcut d d) k)
  ∧ Keyboard.registered k' d.
Proof.
  simpl. revert k. induction segs as [|x segs IH]; intros k Hd Hd'; [done|].
  simpl in *. unfold andThen in *.
  destruct (addShortcut_body_cases cb sc x k)
    as [[Hx Hr]|[(Hx & e & He & Hr)|(Hx & He & Hr)]]; simpl in Hr; rewrite Hr in *;
    clear Hr.
  - assert (x ≠ d) by congruence.
    match goal with |- context [forEach _ segs ?k1] => specialize (IH k1) end.
    unfold Keyboard.listeners in *. simpl in IH.
    rewrite listenersOf_addListener_ne in IH by done. by apply IH.
  - by unfold Keyboard.listeners in *.
  - destruct (decide (x = d)) as [->|Hne].
    + match goal with |- context [forEach _ segs ?k1] =>
        destruct (addShortcut_bound cb sc d segs k1) as (_ & Hc & Hreg) end.
      { unfold Keyboard.listeners. simpl. rewrite listenersOf_addListener_eq.
        intros H. by apply app_eq_nil in H as [_ ?]. }
      rewrite Hc. split.
      * unfold Keyboard.callCount. simpl. rewrite count_snoc.
        rewrite decide_True by done. lia.
      * apply Hreg. unfold Keyboard.registered. simpl. set_solver.
    + match goal with |- context [forEach _ segs ?k1] => specialize (IH k1) end.
      unfold Keyboard.listeners in *. simpl in IH.
      rewrite listenersOf_addListener_ne in IH by done.
      destruct (IH Hd Hd') as [Hc Hreg]. split; [|done].
      rewrite Hc. unfold Keyboard.callCount. simpl. rewrite count_snoc.
      rewrite decide_False by congruence. lia.
Qed.

(** A round of [addShortcut] that returns has appended the listener. *)
Lemma addShortcut_body_normal cb sc x k :
  (Keyboard.addShortcut_body parseError cb sc x k).2 = Normal →
  eventTypes_ (Keyboard.addShortcut_body parseError cb sc x k).1
  = addListener x cb sc (eventTypes_ k).
Proof.
  destruct (addShortcut_body_cases cb sc x k)
    as [[Hx ->]|[(Hx & e & He & ->)|(Hx & He & ->)]]; done.
Qed.

(** A call of [addShortcut] that returns has appended the listener to the
    list of each segment, once per occurrence of the segment. *)
Lemma addShortcut_listeners cb sc segs k d :
  (forEach (Keyboard.addShortcut_body parseError cb sc) segs k).2 = Normal →
  Keyboard.listeners (forEach (Keyboard.addShortcut_body parseError cb sc) segs k).1 d
  = Keyboard.listeners k d ++ replicate (occurrences d segs) (mkListener cb sc).
Proof.
  revert k. induction segs as [|x segs IH]; intros k.
  - intros _. simpl. by rewrite app_nil_r.
  - simpl. unfold andThen.
    pose proof (addShortcut_body_normal cb sc x k) as Hb.
    destruct (Keyboard.addShortcut_body parseError cb sc x k) as [k1 [|e]]; [|done].
    intros Hn. rewrite IH by done. simpl in Hb. specialize (Hb eq_refl).
    unfold Keyboard.listeners, occurrences. rewrite Hb, filter_cons.
    destruct (decide (x = d)) as [->|Hne].
    + rewrite listenersOf_addListener_eq. simpl. by rewrite <- app_assoc.
    + by rewrite listenersOf_addListener_ne.
Qed.




(** When every segment has a listener already, [addShortcut] returns and
    does not call the host. *)
Lemma addShortcut_all_bound cb sc segs k :
  (∀ x, x ∈ segs → Keyboard.listeners k x ≠ []) →
  (forEach (Keyboard.addShortcut_body parseError cb sc) segs k).2 = Normal
  ∧ calls (keyHandler_ (forEach (Keyboard.addShortcut_body parseError cb sc) segs k).1)
    = calls (keyHandler_ k).
Proof.
  revert k. induction segs as [|x segs IH]; intros k Hall; [done|].
  simpl. unfold andThen.
  destruct (addShortcut_body_cases cb sc x k)
    as [[Hx Hr]|[(Hx & e' & He & Hr)|(Hx & He & Hr)]]; simpl in Hr; rewrite Hr;
    clear Hr; [| by destruct (Hall x); [left|] ..].
  match goal with |- context [forEach _ segs ?k1] => destruct (IH k1) as [Hn Hc] end;
    [|done].
  intros y Hy. unfold Keyboard.listeners. simpl.
  destruct (decide (x = y)) as [->|Hne].
  - rewrite listenersOf_addListener_eq. intros H. by apply app_eq_nil in H as [_ ?].
  - rewrite listenersOf_addListener_ne by done. apply Hall. by right.
Qed.

End AddShortcutFacts.

Lemma call_I1 parseError c k : Keyboard.I1 k → Keyboard.I1 (Keyboard.call parseError c k).1.
Proof.
  destruct c; simpl; apply forEach_preserves; intros;
    [by apply addShortcut_body_I1 | by apply removeShortcut_body_I1].
Qed.

Lemma callAll_I1 parseError cs k : Keyboard.I1 k → Keyboard.I1 (Keyboard.callAll parseError cs k).
Proof.
  revert k. induction cs as [|c cs IH]; intros k Hk; [done|].
  simpl. apply IH. by apply call_I1.
Qed.

(** ** Splitting a multi shortcut *)

Lemma split_on_plain sep s :
  contains_char sep s = false → split_on sep s = [s].
Proof.
  induction s as [|c s IH]; [done|]. simpl.
  destruct (Ascii.eqb c sep); [done|]. simpl. intros H. by rewrite IH.
Qed.

Lemma split_on_append sep s t :
  contains_char sep s = false →
  split_on sep (s +:+ String sep t) = s :: split_on sep t.
Proof.
  induction s as [|c s IH]; simpl.
  - by rewrite Ascii.eqb_refl.
  - destruct (Ascii.eqb c sep); [done|]. simpl. intros H. by rewrite IH.
Qed.

Lemma split_on_join sep ds :
  ds ≠ [] → Forall (λ d, contains_char sep d = false) ds →
  split_on sep (join_with sep ds) = ds.
Proof.
  intros Hne Hds. induction Hds as [|d ds Hd Hds IH]; [done|].
  destruct ds as [|d' ds]; simpl.
  - by apply split_on_plain.
  - rewrite split_on_append by done. f_equal. by apply IH.
Qed.

(** ** What firing delivers *)

Section DispatchFacts.

Context {App : Type}.
Variable invoke : EventListener → Keyboard * App → (Keyboard * App) * Completion.

Lemma invocations_app obs1 obs2 :
  Keyboard.invocations (obs1 ++ obs2)
  = Keyboard.invocations obs1 ++ Keyboard.invocations obs2.
Proof. unfold Keyboard.invocations. apply omap_app. Qed.

Lemma emissions_app obs1 obs2 :
  Keyboard.emissions (obs1 ++ obs2)
  = Keyboard.emissions obs1 ++ Keyboard.emissions obs2.
Proof. unfold Keyboard.emissions. apply omap_app. Qed.

(** The fan-out invokes the snapshot, entry by entry, whatever the
    listeners do and however they complete. *)
Lemma fanOut_invocations d snapshot w :
  Keyboard.invocations (Keyboard.fanOut invoke d snapshot w).2
  = map (pair d) snapshot.
Proof.
  revert w. induction snapshot as [|l rest IH]; intros w; [done|].
  simpl. destruct (invoke l w) as [w1 c]. specialize (IH w1).
  destruct (Keyboard.fanOut invoke d rest w1) as [w2 obs]. simpl in *.
  change (Keyboard.Invoked d l :: ?x) with ([Keyboard.Invoked d l] ++ x).
  rewrite !invocations_app, IH. by destruct c.
Qed.

Lemma fanOut_emissions d snapshot w :
  Keyboard.emissions (Keyboard.fanOut invoke d snapshot w).2 = [].
Proof.
  revert w. induction snapshot as [|l rest IH]; intros w; [done|].
  simpl. destruct (invoke l w) as [w1 c]. specialize (IH w1).
  destruct (Keyboard.fanOut invoke d rest w1) as [w2 obs]. simpl in *.
  change (Keyboard.Invoked d l :: ?x) with ([Keyboard.Invoked d l] ++ x).
  rewrite !emissions_app, IH. by destruct c.
Qed.

Lemma keyPressed_invocations e k app :
  Keyboard.invocations (Keyboard.keyPressed_ invoke e (k, app)).2
  = map (pair (Keyboard.identifier e)) (Keyboard.listeners k (Keyboard.identifier e)).
Proof.
  unfold Keyboard.keyPressed_, Keyboard.emitEvent, Keyboard.listeners. simpl.
  pose proof (fanOut_invocations (Keyboard.identifier e)
    (listenersOf (eventTypes_ k) (Keyboard.identifier e)) (k, app)) as H.
  destruct (Keyboard.fanOut invoke _ _ _) as [w' obs]. simpl in *. exact H.
Qed.

Lemma keyPressed_emissions e w :
  Keyboard.emissions (Keyboard.keyPressed_ invoke e w).2 = [Keyboard.identifier e].
Proof.
  unfold Keyboard.keyPressed_, Keyboard.emitEvent.
  pose proof (fanOut_emissions (Keyboard.identifier e)
    (listenersOf (eventTypes_ w.1) (Keyboard.identifier e)) w) as H.
  destruct (Keyboard.fanOut invoke _ _ _) as [w' obs]. simpl in *. by rewrite H.
Qed.

End DispatchFacts.

(** How often firing [d] invokes the listener [l]. *)
Lemma count_invocations (d : string) l (ls : list EventListener) :
  length (filter (λ i, i = (d, l)) (map (pair d) ls)) = count_listener l ls.
Proof.
  unfold count_listener. induction ls as [|x ls IH]; [done|]. simpl.
  rewrite !filter_cons. destruct (decide (x = l)) as [->|Hne].
  - rewrite decide_True by done. simpl. by rewrite IH.
  - rewrite decide_False by congruence. done.
Qed.

Lemma andThen_return (f : Method) k :
  andThen f (λ k0, (k0, Normal)) k = f k.
Proof. unfold andThen. by destruct (f k) as [k' [|e]]. Qed.

Lemma count_listener_app l (xs ys : list EventListener) :
  count_listener l (xs ++ ys) = count_listener l xs + count_listener l ys.
Proof. unfold count_listener. by rewrite filter_app, length_app. Qed.

Lemma count_listener_replicate l n :
  count_listener l (replicate n l) = n.
Proof.
  unfold count_listener. induction n as [|n IH]; [done|].
  simpl. rewrite filter_cons_True by done. simpl. by rewrite IH.
Qed.

(** A descriptor without ['|'] is its own single segment. *)
Lemma addShortcut_plain parseError d cb sc k :
  contains_char bar d = false →
  Keyboard.addShortcut parseError d cb sc k
  = Keyboard.addShortcut_body parseError cb sc d k.
Proof.
  intros Hd. unfold Keyboard.addShortcut. rewrite split_on_plain by done.
  simpl. apply andThen_return.
Qed.

(** ** Invariant I1 *)

(** C1. After any sequence of [addShortcut] and [removeShortcut] calls on a
    new keyboard, thrown or not, a descriptor is registered with the host
    exactly when it has a listener. The [addShortcut] call that gives a
    descriptor its first listener sends the host exactly one
    [registerShortcut] for it and leaves it registered; the [removeShortcut]
    call that removes its last listener sends the host an
    [unregisterShortcut] for it and leaves it unregistered. *)
Theorem registration_iff_listeners (parseError : string → option Error)
    (cs : list Keyboard.Call) (targetWindow : Window) (d : string) :
  let k := Keyboard.callAll parseError cs (Keyboard.create targetWindow) in
  (Keyboard.registered k d ↔ Keyboard.listeners k d ≠ [])
  ∧ (∀ shortcut callback opt_scope,
       let k' := (Keyboard.addShortcut parseError shortcut callback opt_scope k).1 in
       Keyboard.listeners k d = [] → Keyboard.listeners k' d ≠ [] →
       Keyboard.callCount (RegisterShortcut d d) k'
       = S (Keyboard.callCount (RegisterShortcut d d) k)
       ∧ Keyboard.registered k' d)
  ∧ (∀ shortcut callback opt_scope,
       let k' := (Keyboard.removeShortcut shortcut callback opt_scope k).1 in
       Keyboard.listeners k d ≠ [] → Keyboard.listeners k' d = [] →
       (Keyboard.callCount (UnregisterShortcut d) k
        < Keyboard.callCount (UnregisterShortcut d) k')%nat
       ∧ ¬ Keyboard.registered k' d).
Proof.
  simpl. split; [|split].
  - exact (callAll_I1 parseError cs _ (create_I1 targetWindow) d).
  - intros shortcut callback opt_scope Hd Hd'.
    by apply (addShortcut_first parseError callback opt_scope d
                (split_on bar shortcut)).
  - intros shortcut callback opt_scope Hd Hd'.
    by apply (removeShortcut_last callback opt_scope d (split_on bar shortcut)).
Qed.

Lemma registration_iff_listeners_witness :
  let k := Keyboard.create 0 in
  let k' := (Keyboard.addShortcut (λ _, None) "ctrl+g|ctrl+h" 7 None k).1 in
  let k'' := (Keyboard.removeShortcut "ctrl+g" 7 None k').1 in
  (Keyboard.callCount (RegisterShortcut "ctrl+g" "ctrl+g") k' = 1
   ∧ Keyboard.registered k' "ctrl+g")
  ∧ ((0 < Keyboard.callCount (UnregisterShortcut "ctrl+g") k'')%nat
     ∧ ¬ Keyboard.registered k'' "ctrl+g").
Proof.
  split.
  - destruct (registration_iff_listeners (λ _, None) [] 0 "ctrl+g") as (_ & Hadd & _).
    apply (Hadd "ctrl+g|ctrl+h" 7 None); [reflexivity | by vm_compute].
  - destruct (registration_iff_listeners (λ _, None)
                [Keyboard.AddShortcut "ctrl+g|ctrl+h" 7 None] 0 "ctrl+g")
      as (_ & _ & Hrem).
    apply (Hrem "ctrl+g" 7 None); [by vm_compute | reflexivity].
Defined.

(** ** Removal, segment by segment *)

Lemma removeShortcut_body_listeners cb sc x k d :
  Keyboard.listeners (Keyboard.removeShortcut_body cb sc x k).1 d
  = (if decide (x = d) then remove_first (mkListener cb sc) (Keyboard.listeners k d)
     else Keyboard.listeners k d)
  ∧ (Keyboard.removeShortcut_body cb sc x k).2 = Normal.
Proof.
  destruct (removeShortcut_body_cases cb sc x k) as [[Hx ->]|[Hx ->]];
    unfold Keyboard.listeners; simpl; (split; [|done]);
    (destruct (decide (x = d)) as [->|Hne];
     [apply listenersOf_removeListener_eq | by apply listenersOf_removeListener_ne]).
Qed.

Lemma strip_app rs1 rs2 l : strip (rs1 ++ rs2) l = strip rs2 (strip rs1 l).
Proof. unfold strip. apply foldl_app. Qed.

(** [removeShortcut] returns, and takes from the list of [d] one match of
    the listener per segment equal to [d]. *)
Lemma removeShortcut_segments cb sc segs k d :
  Keyboard.listeners (forEach (Keyboard.removeShortcut_body cb sc) segs k).1 d
  = strip (replicate (occurrences d segs) (mkListener cb sc)) (Keyboard.listeners k d)
  ∧ (forEach (Keyboard.removeShortcut_body cb sc) segs k).2 = Normal.
Proof.
  revert k. induction segs as [|x segs IH]; intros k; [done|].
  simpl. unfold andThen.
  destruct (removeShortcut_body_listeners cb sc x k d) as [Hl Hn].
  destruct (Keyboard.removeShortcut_body cb sc x k) as [k1 c]. simpl in *. subst c.
  destruct (IH k1) as [IHl IHn]. split; [|done].
  rewrite IHl, Hl. unfold occurrences. rewrite filter_cons.
  by destruct (decide (x = d)).
Qed.

Lemma count_strip l rs ls :
  count_listener l (strip rs ls) = count_listener l ls - count_listener l rs.
Proof.
  revert ls. induction rs as [|r rs IH]; intros ls; simpl.
  - unfold count_listener at 3. simpl. lia.
  - change (strip (r :: rs) ls) with (strip rs (remove_first r ls)).
    rewrite IH. unfold count_listener at 4. rewrite filter_cons.
    destruct (decide (r = l)) as [->|Hne].
    + rewrite count_remove_first_eq. unfold count_listener. simpl. lia.
    + by rewrite count_remove_first_ne.
Qed.

Lemma filter_remove_first (P : EventListener → Prop) `{!∀ x, Decision (P x)} r ls :
  ¬ P r → filter P (remove_first r ls) = filter P ls.
Proof.
  intros Hr. induction ls as [|y ls IH]; [done|]. simpl.
  destruct (decide (y = r)) as [->|Hne].
  - by rewrite filter_cons_False.
  - by rewrite !filter_cons, IH.
Qed.

Lemma filter_strip (P : EventListener → Prop) `{!∀ x, Decision (P x)} rs ls :
  (∀ r, r ∈ rs → ¬ P r) → filter P (strip rs ls) = filter P ls.
Proof.
  revert ls. induction rs as [|r rs IH]; intros ls Hrs; [done|].
  change (strip (r :: rs) ls) with (strip rs (remove_first r ls)).
  rewrite IH by (intros; apply Hrs; by right).
  apply filter_remove_first, Hrs. by left.
Qed.

Lemma removeShortcut_body_eventTypes cb sc x k :
  eventTypes_ (Keyboard.removeShortcut_body cb sc x k).1
  = removeListener x cb sc (eventTypes_ k).
Proof. by destruct (removeShortcut_body_cases cb sc x k) as [[Hx ->]|[Hx ->]]. Qed.

Lemma removeShortcut_body_normal cb sc x k :
  (Keyboard.removeShortcut_body cb sc x k).2 = Normal.
Proof. by destruct (removeShortcut_body_cases cb sc x k) as [[Hx ->]|[Hx ->]]. Qed.

(** Removing a listener that no segment has leaves the table as it is. *)
Lemma removeShortcut_absent cb sc segs k :
  (∀ d, d ∈ segs → mkListener cb sc ∉ Keyboard.listeners k d) →
  eventTypes_ (forEach (Keyboard.removeShortcut_body cb sc) segs k).1 = eventTypes_ k.
Proof.
  revert k. induction segs as [|x segs IH]; intros k Habs; [done|].
  simpl. unfold andThen.
  pose proof (removeShortcut_body_eventTypes cb sc x k) as He.
  pose proof (removeShortcut_body_normal cb sc x k) as Hn.
  destruct (Keyboard.removeShortcut_body cb sc x k) as [k1 c]. simpl in *. subst c.
  rewrite removeListener_absent in He by (apply Habs; by left).
  rewrite IH; [done|]. intros d Hd. unfold Keyboard.listeners. rewrite He.
  apply Habs. by right.
Qed.

Lemma occurrences_absent (d : string) ds : d ∉ ds → occurrences d ds = 0.
Proof.
  unfold occurrences. induction ds as [|x ds IH]; [done|].
  intros H. apply not_elem_of_cons in H as [Hne H].
  rewrite filter_cons_False by congruence. by apply IH.
Qed.

Lemma occurrences_present (d : string) ds : d ∈ ds → 0 < occurrences d ds.
Proof.
  unfold occurrences. induction ds as [|x ds IH]; [by intros ?%elem_of_nil|].
  rewrite filter_cons. destruct (decide (x = d)); [simpl; lia|].
  intros [?|?]%elem_of_cons; [congruence | by apply IH].
Qed.

(** ** Removing what is not there *)

(** C4. [removeShortcut] never throws and never touches a listener other
    than the one it is given: on every descriptor the other listeners stay,
    in their order, and descriptors that are not segments keep their lists.
    When no segment has the listener, the whole listener table is
    unchanged. So a second removal after the first returns as well and
    leaves the other listeners as they were. *)
Theorem removeShortcut_missing_is_ignored (shortcut : string) (callback : Callback)
    (opt_scope : option ScopeObj) (k : Keyboard) :
  let l := mkListener callback opt_scope in
  let r := Keyboard.removeShortcut shortcut callback opt_scope k in
  let r2 := Keyboard.removeShortcut shortcut callback opt_scope r.1 in
  r.2 = Normal
  ∧ (∀ d, filter (λ x, x ≠ l) (Keyboard.listeners r.1 d)
          = filter (λ x, x ≠ l) (Keyboard.listeners k d))
  ∧ (∀ d, d ∉ split_on bar shortcut → Keyboard.listeners r.1 d = Keyboard.listeners k d)
  ∧ ((∀ d, d ∈ split_on bar shortcut → l ∉ Keyboard.listeners k d) →
     eventTypes_ r.1 = eventTypes_ k)
  ∧ r2.2 = Normal
  ∧ (∀ d, filter (λ x, x ≠ l) (Keyboard.listeners r2.1 d)
          = filter (λ x, x ≠ l) (Keyboard.listeners k d))
  ∧ ((∀ d, d ∈ split_on bar shortcut → l ∉ Keyboard.listeners r.1 d) →
     eventTypes_ r2.1 = eventTypes_ r.1).
Proof.
  assert (Hothers : ∀ k0 d,
    filter (λ x, x ≠ mkListener callback opt_scope)
      (Keyboard.listeners (Keyboard.removeShortcut shortcut callback opt_scope k0).1 d)
    = filter (λ x, x ≠ mkListener callback opt_scope) (Keyboard.listeners k0 d)).
  { intros k0 d. unfold Keyboard.removeShortcut.
    destruct (removeShortcut_segments callback opt_scope (split_on bar shortcut) k0 d)
      as [-> _].
    apply filter_strip. intros r Hr Hne. apply elem_of_replicate in Hr as [-> _].
    by apply Hne. }
  simpl. unfold Keyboard.removeShortcut in *. repeat split.
  - apply (removeShortcut_segments callback opt_scope _ k EmptyString).
  - apply Hothers.
  - intros d Hd.
    destruct (removeShortcut_segments callback opt_scope (split_on bar shortcut) k d)
      as [-> _].
    by rewrite occurrences_absent.
  - apply removeShortcut_absent.
  - apply (removeShortcut_segments callback opt_scope _ _ EmptyString).
  - intros d. by rewrite !Hothers.
  - apply removeShortcut_absent.
Qed.

Lemma removeShortcut_missing_is_ignored_witness :
  let k := (Keyboard.addShortcut (λ _, None) "ctrl+g" 8 None (Keyboard.create 0)).1 in
  eventTypes_ (Keyboard.removeShortcut "ctrl+g|ctrl+h" 7 None k).1 = eventTypes_ k.
Proof.
  apply (removeShortcut_missing_is_ignored "ctrl+g|ctrl+h" 7 None).
  intros d Hd. vm_compute in Hd.
  apply elem_of_cons in Hd as [->|Hd]; [by vm_compute; intros ?%list_elem_of_singleton|].
  apply list_elem_of_singleton in Hd as ->. vm_compute. apply not_elem_of_nil.
Defined.

(** ** Unregistering *)

(** C10. Whenever a segment of the shortcut has no listener once
    [removeShortcut] is over, the call sent the host an
    [unregisterShortcut] for that segment, whatever the keyboard was before:
    also when the segment had no listener and no registration to begin
    with. *)
Theorem removeShortcut_always_unregisters (shortcut : string) (callback : Callback)
    (opt_scope : option ScopeObj) (k : Keyboard) (d : string) :
  let k' := (Keyboard.removeShortcut shortcut callback opt_scope k).1 in
  d ∈ split_on bar shortcut → Keyboard.listeners k' d = [] →
  (Keyboard.callCount (UnregisterShortcut d) k
   < Keyboard.callCount (UnregisterShortcut d) k')%nat.
Proof.
  simpl. unfold Keyboard.removeShortcut. generalize (split_on bar shortcut) as segs.
  intros segs. revert k. induction segs as [|x segs IH]; intros k Hd Hnil;
    [by apply elem_of_nil in Hd|].
  simpl in *. unfold andThen in *.
  destruct (removeShortcut_body_cases callback opt_scope x k) as [[Hx Hr]|[Hx Hr]];
    simpl in Hr; rewrite Hr in *; clear Hr;
    match goal with |- context [forEach _ segs ?k1] => set (k1' := k1) in * end.
  - destruct (decide (d ∈ segs)) as [Hin|Hout].
    + by apply (IH k1').
    + apply elem_of_cons in Hd as [->|?]; [|done].
      destruct (removeShortcut_segments callback opt_scope segs k1' x) as [Hl _].
      rewrite occurrences_absent in Hl by done. simpl in Hl.
      rewrite Hl in Hnil. by unfold Keyboard.listeners in Hnil.
  - destruct (decide (d ∈ segs)) as [Hin|Hout].
    + eapply Nat.le_lt_trans; [|by apply (IH k1')].
      unfold Keyboard.callCount. simpl. rewrite count_snoc. lia.
    + apply elem_of_cons in Hd as [->|?]; [|done].
      destruct (removeShortcut_unregistered callback opt_scope x segs k1') as [Hc _].
      eapply Nat.lt_le_trans; [|exact Hc].
      unfold Keyboard.callCount. simpl. rewrite count_snoc.
      rewrite decide_True by done. lia.
Qed.

Lemma removeShortcut_always_unregisters_witness :
  (Keyboard.callCount (UnregisterShortcut "ctrl+g") (Keyboard.create 0)
   < Keyboard.callCount (UnregisterShortcut "ctrl+g")
       (Keyboard.removeShortcut "ctrl+g" 7 None (Keyboard.create 0)).1)%nat.
Proof.
  apply (removeShortcut_always_unregisters "ctrl+g" 7 None (Keyboard.create 0) "ctrl+g").
  - vm_compute. by left.
  - reflexivity.
Defined.

(** ** Disposing a scope *)

(** The removals of a disposal, descriptor by descriptor. *)
Lemma disposeInternal_listeners ts k d :
  let r := forEach (λ listener : ListenerTuple,
                      Keyboard.removeShortcut listener.1.1 listener.1.2 listener.2)
             ts k in
  Keyboard.listeners r.1 d = strip (KeyboardScope.removed d ts) (Keyboard.listeners k d)
  ∧ r.2 = Normal.
Proof.
  simpl. revert k. induction ts as [|[[sh cb] sc] ts IH]; intros k; [done|].
  simpl. unfold andThen, Keyboard.removeShortcut at 1 3.
  destruct (removeShortcut_segments cb sc (split_on bar sh) k d) as [Hl Hn].
  destruct (forEach (Keyboard.removeShortcut_body cb sc) (split_on bar sh) k)
    as [k1 c]. simpl in *. subst c.
  destruct (IH k1) as [IHl IHn]. split; [|done].
  by rewrite IHl, Hl, strip_app.
Qed.

Lemma elem_of_removed l d ts :
  l ∈ KeyboardScope.removed d ts
  ↔ ∃ shortcut callback opt_scope,
      (shortcut, callback, opt_scope) ∈ ts
      ∧ d ∈ split_on bar shortcut ∧ l = mkListener callback opt_scope.
Proof.
  unfold KeyboardScope.removed. rewrite list_elem_of_In, in_flat_map. split.
  - intros ([[sh cb] sc] & Ht & Hl). apply list_elem_of_In in Ht, Hl.
    apply elem_of_replicate in Hl as [-> Hn]. simpl in *.
    exists sh, cb, sc. split; [done|]. split; [|done].
    destruct (decide (d ∈ split_on bar sh)) as [|Hout]; [done|].
    by rewrite occurrences_absent in Hn.
  - intros (sh & cb & sc & Ht & Hd & ->). exists (sh, cb, sc).
    split; [by apply list_elem_of_In|]. apply list_elem_of_In. simpl.
    apply elem_of_replicate. split; [done|].
    apply occurrences_present in Hd. lia.
Qed.

(** C3. Disposal returns and leaves the scope's record as it is. On every
    descriptor it removes each listener as many times as the scope recorded
    it for that descriptor (as far as the keyboard has that many), and the
    listeners the scope did not record for the descriptor stay, in their
    order. What counts as recorded is what the scope's own [addShortcut]
    pushed. A scope that recorded nothing changes nothing. *)
Theorem dispose_removes_what_was_recorded (s : KeyboardScope) (k : Keyboard)
    (d : string) (l : EventListener) :
  let r := KeyboardScope.disposeInternal (s, k) in
  let gone := KeyboardScope.removed d (listeners_ s) in
  r.2 = Normal ∧ r.1.1 = s
  ∧ count_listener l (Keyboard.listeners r.1.2 d)
    = count_listener l (Keyboard.listeners k d) - count_listener l gone
  ∧ filter (λ x, x ∉ gone) (Keyboard.listeners r.1.2 d)
    = filter (λ x, x ∉ gone) (Keyboard.listeners k d)
  ∧ (l ∈ gone ↔ ∃ shortcut callback opt_scope,
       (shortcut, callback, opt_scope) ∈ listeners_ s
       ∧ d ∈ split_on bar shortcut ∧ l = mkListener callback opt_scope)
  ∧ (∀ parseError shortcut callback opt_scope k0,
       listeners_ (KeyboardScope.addShortcut parseError shortcut callback opt_scope
                     (s, k0)).1.1
       = listeners_ s ++ [(shortcut, callback, opt_scope)])
  ∧ (listeners_ s = [] → r = ((s, k), Normal)).
Proof.
  simpl. unfold KeyboardScope.disposeInternal.
  destruct (disposeInternal_listeners (listeners_ s) k d) as [Hl Hn].
  destruct (forEach _ (listeners_ s) k) as [k' c] eqn:Hr. simpl in *. subst c.
  repeat split.
  - by rewrite Hl, count_strip.
  - rewrite Hl. apply filter_strip. intros x Hx Hnot. by apply Hnot.
  - by apply elem_of_removed.
  - by apply elem_of_removed.
  - intros parseError shortcut callback opt_scope k0.
    unfold KeyboardScope.addShortcut.
    by destruct (Keyboard.addShortcut parseError shortcut callback opt_scope k0).
  - intros Hnil. rewrite Hnil in Hr. simpl in Hr. by inversion Hr.
Qed.

Lemma dispose_removes_what_was_recorded_witness :
  KeyboardScope.disposeInternal
    (KeyboardScope.create,
     (Keyboard.addShortcut (λ _, None) "ctrl+g" 7 None (Keyboard.create 0)).1)
  = ((KeyboardScope.create,
      (Keyboard.addShortcut (λ _, None) "ctrl+g" 7 None (Keyboard.create 0)).1),
     Normal).
Proof.
  apply (dispose_removes_what_was_recorded KeyboardScope.create
           (Keyboard.addShortcut (λ _, None) "ctrl+g" 7 None (Keyboard.create 0)).1
           "ctrl+g" (mkListener 7 None)).
  reflexivity.
Defined.

(** Disposing through [dispose] runs the removals once: the first call is
    [disposeInternal] on the scope marked disposed, the second does nothing. *)
Lemma dispose_once s k :
  disposed_ s = false →
  let r := KeyboardScope.dispose (s, k) in
  r = KeyboardScope.disposeInternal (mkScope (listeners_ s) true, k)
  ∧ KeyboardScope.dispose r.1 = (r.1, Normal).
Proof.
  intros Hs. simpl. unfold KeyboardScope.dispose, KeyboardScope.disposeInternal.
  rewrite Hs. simpl. by destruct (forEach _ _ k) as [k' c].
Qed.

(** ** Multi shortcuts *)

(** C2, as amended. [addShortcut] with descriptors joined by ['|'] does what
    calling [addShortcut] for each descriptor in turn does, left to right,
    with the same state and the same completion. When the call returns,
    firing a descriptor invokes the callback once for each entry stored for
    it: as often as before the call, plus once for each occurrence of the
    descriptor in the compound. *)
Theorem compound_shortcut_is_sequence (parseError : string → option Error)
    {App : Type}
    (invoke : EventListener → Keyboard * App → (Keyboard * App) * Completion)
    (k : Keyboard) (callback : Callback) (opt_scope : option ScopeObj)
    (ds : list string) (app : App) :
  ds ≠ [] → Forall (λ d, contains_char bar d = false) ds →
  let r := Keyboard.addShortcut parseError (join_with bar ds) callback opt_scope k in
  r = forEach (λ d, Keyboard.addShortcut parseError d callback opt_scope) ds k
  ∧ (r.2 = Normal → ∀ d,
       length (filter (λ i, i = (d, mkListener callback opt_scope))
                 (Keyboard.invocations
                    (Keyboard.keyPressed_ invoke (Keyboard.mkEvent d) (r.1, app)).2))
       = count_listener (mkListener callback opt_scope) (Keyboard.listeners k d)
         + occurrences d ds).
Proof.
  intros Hne Hds. simpl. split.
  - unfold Keyboard.addShortcut at 1. rewrite split_on_join by done.
    clear Hne. revert k. induction Hds as [|d ds Hd Hds IH]; intros k; [done|].
    simpl. unfold andThen. rewrite addShortcut_plain by done.
    destruct (Keyboard.addShortcut_body parseError callback opt_scope d k)
      as [k1 [|e]]; [apply IH | done].
  - intros Hn d. rewrite keyPressed_invocations. simpl.
    rewrite count_invocations. unfold Keyboard.addShortcut in *.
    rewrite split_on_join in * by done.
    rewrite addShortcut_listeners by done.
    by rewrite count_listener_app, count_listener_replicate.
Qed.

Lemma compound_shortcut_is_sequence_witness :
  let r := Keyboard.addShortcut (λ _, None) "ctrl+g|ctrl+h" 7 None (Keyboard.create 0) in
  r = forEach (λ d, Keyboard.addShortcut (λ _, None) d 7 None) ["ctrl+g"; "ctrl+h"]
        (Keyboard.create 0)
  ∧ length (filter (λ i, i = ("ctrl+g", mkListener 7 None))
              (Keyboard.invocations
                 (Keyboard.keyPressed_ (λ _ w, (w, Normal))
                    (Keyboard.mkEvent "ctrl+g") (r.1, tt)).2)) = 1.
Proof.
  destruct (compound_shortcut_is_sequence (λ _, None) (λ _ w, (w, Normal))
              (Keyboard.create 0) 7 None ["ctrl+g"; "ctrl+h"] tt) as [Heq Hfire].
  - discriminate.
  - repeat constructor.
  - split; [exact Heq|]. exact (Hfire eq_refl "ctrl+g").
Defined.

(** C2, as stated, fails: on a keyboard where the callback is already bound
    to ["ctrl+g"], adding ["ctrl+g|ctrl+h"] with it and firing ["ctrl+g"]
    invokes the callback twice. *)
Lemma compound_fires_once_counterexample :
  let k := (Keyboard.addShortcut (λ _, None) "ctrl+g" 7 None (Keyboard.create 0)).1 in
  let k' := (Keyboard.addShortcut (λ _, None) "ctrl+g|ctrl+h" 7 None k).1 in
  Keyboard.invocations
    (Keyboard.keyPressed_ (λ _ w, (w, Normal)) (Keyboard.mkEvent "ctrl+g") (k', tt)).2
  = [("ctrl+g", mkListener 7 None); ("ctrl+g", mkListener 7 None)].
Proof. vm_compute. reflexivity. Qed.

(** ** Descriptors go to the host as they are *)




(** ** Adding the same listener twice *)

(** C8. After an [addShortcut] that returned, the same call again returns
    too, without calling the host, and stores the listener once more for
    each segment: the lists hold it twice per occurrence of the segment on
    top of what they held before. Firing a descriptor invokes the callback
    once for each stored entry. *)
Theorem duplicate_add_is_stored_and_fires (parseError : string → option Error)
    {App : Type}
    (invoke : EventListener → Keyboard * App → (Keyboard * App) * Completion)
    (k : Keyboard) (shortcut : string) (callback : Callback)
    (opt_scope : option ScopeObj) (app : App) (d : string) :
  let l := mkListener callback opt_scope in
  let n := occurrences d (split_on bar shortcut) in
  let r1 := Keyboard.addShortcut parseError shortcut callback opt_scope k in
  let r2 := Keyboard.addShortcut parseError shortcut callback opt_scope r1.1 in
  r1.2 = Normal →
  r2.2 = Normal
  ∧ calls (keyHandler_ r2.1) = calls (keyHandler_ r1.1)
  ∧ Keyboard.listeners r2.1 d = Keyboard.listeners r1.1 d ++ replicate n l
  ∧ count_listener l (Keyboard.listeners r2.1 d)
    = count_listener l (Keyboard.listeners k d) + 2 * n
  ∧ length (filter (λ i, i = (d, l))
              (Keyboard.invocations
                 (Keyboard.keyPressed_ invoke (Keyboard.mkEvent d) (r2.1, app)).2))
    = count_listener l (Keyboard.listeners r2.1 d).
Proof.
  simpl. unfold Keyboard.addShortcut. intros Hn1.
  destruct (addShortcut_all_bound parseError callback opt_scope (split_on bar shortcut)
              (forEach (Keyboard.addShortcut_body parseError callback opt_scope)
                 (split_on bar shortcut) k).1) as [Hn2 Hcalls].
  { intros x Hx. rewrite addShortcut_listeners by done.
    apply occurrences_present in Hx.
    destruct (occurrences x (split_on bar shortcut)); [lia|].
    simpl. intros H. by apply app_eq_nil in H as [_ ?]. }
  split; [done|]. split; [done|].
  rewrite keyPressed_invocations, count_invocations. simpl.
  rewrite (addShortcut_listeners parseError callback opt_scope _ _ d Hn2).
  rewrite (addShortcut_listeners parseError callback opt_scope _ _ d Hn1).
  split; [done|]. split; [|done].
  rewrite !count_listener_app, !count_listener_replicate. lia.
Qed.

Lemma duplicate_add_is_stored_and_fires_witness :
  let r1 := Keyboard.addShortcut (λ _, None) "ctrl+g" 7 None (Keyboard.create 0) in
  let r2 := Keyboard.addShortcut (λ _, None) "ctrl+g" 7 None r1.1 in
  r2.2 = Normal
  ∧ Keyboard.listeners r2.1 "ctrl+g" = [mkListener 7 None; mkListener 7 None]
  ∧ length (filter (λ i, i = ("ctrl+g", mkListener 7 None))
              (Keyboard.invocations
                 (Keyboard.keyPressed_ (λ _ w, (w, Throw "boom"))
                    (Keyboard.mkEvent "ctrl+g") (r2.1, tt)).2)) = 2.
Proof.
  destruct (duplicate_add_is_stored_and_fires (λ _, None) (λ _ w, (w, Throw "boom"))
              (Keyboard.create 0) "ctrl+g" 7 None tt "ctrl+g" eq_refl)
    as (Hn & _ & Hl & Hc & Hf).
  split; [exact Hn|]. split; [exact Hl|]. rewrite Hf. exact Hc.
Defined.

(** ** One keyboard per window *)

Lemma grows_refl p : Keyboard.grows p p.
Proof. by split. Qed.

Lemma getUid_facts obj p :
  let r := Keyboard.getUid obj p in
  Keyboard.uidProperty_ r.2 !! obj = Some r.1
  ∧ Keyboard.grows p r.2
  ∧ Keyboard.keyboards r.2 = Keyboard.keyboards p
  ∧ Keyboard.keyboardInstances_ r.2 = Keyboard.keyboardInstances_ p
  ∧ (Keyboard.uidProperty_ p !! obj = None → r.1 = S (Keyboard.uidCounter_ p))
  ∧ (Keyboard.consistent p → Keyboard.consistent r.2).
Proof.
  unfold Keyboard.getUid. destruct (Keyboard.uidProperty_ p !! obj) as [uid|] eqn:Hobj; simpl.
  - split; [done|]. split; [apply grows_refl|]. do 3 (split; [done|]). done.
  - split; [by rewrite lookup_insert_eq|]. split.
    { split; simpl; [by apply insert_subseteq | done]. }
    split; [done|]. split; [done|]. split; [done|].
    intros (Hrange & Hinj & Halloc & Hkinj). split; [|split; [|split]]; simpl.
    + intros obj0 uid. destruct (decide (obj = obj0)) as [->|Hne].
      * rewrite lookup_insert_eq. intros [= <-]. lia.
      * rewrite lookup_insert_ne by done. intros H%Hrange. lia.
    + intros obj1 obj2 uid.
      destruct (decide (obj1 = obj)) as [->|Hne1];
        destruct (decide (obj2 = obj)) as [->|Hne2]; [done | | |].
      * rewrite lookup_insert_eq, lookup_insert_ne by done.
        intros [= <-] H2%Hrange. lia.
      * rewrite lookup_insert_eq, lookup_insert_ne by done.
        intros H1%Hrange [= <-]. lia.
      * rewrite !lookup_insert_ne by done. apply Hinj.
    + intros uid kb H%Halloc. lia.
    + done.
Qed.

Lemma newKeyboard_consistent w p :
  Keyboard.consistent p → Keyboard.consistent (Keyboard.newKeyboard w p).2.
Proof.
  intros (Hrange & Hinj & Halloc & Hkinj). split; [|split; [|split]]; simpl; try done.
  intros uid kb Hkb%Halloc. rewrite length_app. simpl. lia.
Qed.

Lemma newKeyboard_grows w p : Keyboard.grows p (Keyboard.newKeyboard w p).2.
Proof. by split. Qed.

Lemma grows_trans p1 p2 p3 :
  Keyboard.grows p1 p2 → Keyboard.grows p2 p3 → Keyboard.grows p1 p3.
Proof. intros [? ?] [? ?]. split; by etrans. Qed.

Lemma cached_grows p p' obj keyboard :
  Keyboard.grows p p' → Keyboard.cached p obj keyboard → Keyboard.cached p' obj keyboard.
Proof.
  intros [Hu Hk] (uid & Hobj & Hkb). exists uid.
  split; by eapply lookup_weaken.
Qed.

(** Two different objects never share a cached keyboard. *)
Lemma cached_distinct p obj1 obj2 keyboard1 keyboard2 :
  Keyboard.consistent p → obj1 ≠ obj2 →
  Keyboard.cached p obj1 keyboard1 → Keyboard.cached p obj2 keyboard2 →
  keyboard1 ≠ keyboard2.
Proof.
  intros (Hrange & Hinj & Halloc & Hkinj) Hne (u1 & Ho1 & Hk1) (u2 & Ho2 & Hk2) ->.
  apply Hne. pose proof (Hkinj _ _ _ Hk1 Hk2) as ->. by eapply Hinj.
Qed.

Lemma start_consistent : Keyboard.consistent Keyboard.start.
Proof.
  unfold Keyboard.start. split; [|split; [|split]]; simpl; intros *;
    by rewrite ?lookup_empty.
Qed.

Section GetWindowKeyboard.

Variable global : Window.

Lemma getWindowKeyboard_facts opt_window p :
  let r := Keyboard.getWindowKeyboard global opt_window p in
  Keyboard.cached r.2 (default global opt_window) r.1
  ∧ Keyboard.grows p r.2
  ∧ (Keyboard.consistent p → Keyboard.consistent r.2)
  ∧ (Keyboard.consistent p →
     (∀ keyboard, ¬ Keyboard.cached p (default global opt_window) keyboard) →
     r.1 = length (Keyboard.keyboards p)
     ∧ Keyboard.keyboards r.2 = Keyboard.keyboards p ++ [Keyboard.create (default global opt_window)]).
Proof.
  unfold Keyboard.getWindowKeyboard.
  destruct (getUid_facts (default global opt_window) p)
    as (Hu & Hg & Hk & Hi & Hfresh & Hc).
  destruct (Keyboard.getUid (default global opt_window) p) as [uid p1]. simpl in *.
  destruct (Keyboard.keyboardInstances_ p1 !! uid) as [kb|] eqn:Hkb; simpl.
  - split; [by exists uid|]. split; [done|]. split; [done|].
    intros Hp Hnone. exfalso. rewrite Hi in Hkb.
    destruct (Keyboard.uidProperty_ p !! default global opt_window) as [uid'|] eqn:Hobj.
    + apply (Hnone kb). exists uid'. split; [done|].
      destruct Hg as [Hg _]. pose proof (lookup_weaken _ _ _ _ Hobj Hg) as Hu'.
      assert (Some uid' = Some uid) as [= ->]; [|done].
      etrans; [symmetry; exact Hu' | exact Hu].
    + rewrite (Hfresh Hobj) in Hkb.
      destruct Hp as (_ & _ & Halloc & _). apply Halloc in Hkb. lia.
  - split; [exists uid; simpl; by rewrite lookup_insert_eq|].
    split.
    { destruct Hg as [Hg1 Hg2]. split; simpl; [done|].
      etrans; [exact Hg2|]. by apply insert_subseteq. }
    split.
    + intros Hp. destruct (Hc Hp) as (Hrange & Hinj & Halloc & Hkinj).
      split; [|split; [|split]]; simpl; try done.
      * intros uid' kb. rewrite length_app. simpl.
        destruct (decide (uid = uid')) as [->|Hne].
        -- rewrite lookup_insert_eq. intros [= <-].
           split; [by eapply Hrange | lia].
        -- rewrite lookup_insert_ne by done. intros Hl%Halloc. lia.
      * intros uid1 uid2 kb.
        destruct (decide (uid1 = uid)) as [->|Hne1];
          destruct (decide (uid2 = uid)) as [->|Hne2]; [done | | |].
        -- rewrite lookup_insert_eq, lookup_insert_ne by done.
           intros [= <-] H2%Halloc. lia.
        -- rewrite lookup_insert_eq, lookup_insert_ne by done.
           intros H1%Halloc [= <-]. lia.
        -- rewrite !lookup_insert_ne by done. apply Hkinj.
    + intros _ _. by rewrite Hk.
Qed.

(** A cached keyboard is what the lookup returns, and the lookup changes
    nothing then. *)
Lemma getWindowKeyboard_cached opt_window p keyboard :
  Keyboard.cached p (default global opt_window) keyboard →
  Keyboard.getWindowKeyboard global opt_window p = (keyboard, p).
Proof.
  intros (uid & Hobj & Hkb). unfold Keyboard.getWindowKeyboard, Keyboard.getUid.
  rewrite Hobj. by rewrite Hkb.
Qed.

Lemma perform_facts a p :
  Keyboard.grows p (Keyboard.perform global a p)
  ∧ (Keyboard.consistent p → Keyboard.consistent (Keyboard.perform global a p)).
Proof.
  destruct a as [opt_window|obj|w]; simpl.
  - destruct (getWindowKeyboard_facts opt_window p) as (_ & Hg & Hc & _). done.
  - destruct (getUid_facts obj p) as (_ & Hg & _ & _ & _ & Hc). done.
  - split; [apply newKeyboard_grows | apply newKeyboard_consistent].
Qed.

Lemma performAll_facts acts p :
  Keyboard.grows p (Keyboard.performAll global acts p)
  ∧ (Keyboard.consistent p → Keyboard.consistent (Keyboard.performAll global acts p)).
Proof.
  revert p. induction acts as [|a acts IH]; intros p; simpl.
  - split; [apply grows_refl | done].
  - destruct (perform_facts a p) as [Hg Hc].
    destruct (IH (Keyboard.perform global a p)) as [Hg' Hc'].
    split; [by eapply grows_trans | auto].
Qed.

End GetWindowKeyboard.

(** C5. In a process that ran any of this code, whatever else runs between
    two lookups of the same window, the second lookup returns the keyboard
    the first returned, and a lookup of any other window returns another
    keyboard. A lookup without a window is the lookup of [goog.global]. The
    first lookup of a window leaves the keyboard cached for it; when none
    was cached it is a newly allocated keyboard made for that window. *)
Theorem getWindowKeyboard_one_per_window (global : Window)
    (before between : list Keyboard.Action) (w : Window) :
  let p := Keyboard.performAll global before Keyboard.start in
  let r1 := Keyboard.getWindowKeyboard global (Some w) p in
  let p2 := Keyboard.performAll global between r1.2 in
  (Keyboard.getWindowKeyboard global (Some w) p2).1 = r1.1
  ∧ (∀ w', w' ≠ w → (Keyboard.getWindowKeyboard global (Some w') p2).1 ≠ r1.1)
  ∧ (∀ q, Keyboard.getWindowKeyboard global None q
          = Keyboard.getWindowKeyboard global (Some global) q)
  ∧ Keyboard.cached r1.2 w r1.1
  ∧ ((∀ keyboard, ¬ Keyboard.cached p w keyboard) →
     r1.1 = length (Keyboard.keyboards p)
     ∧ Keyboard.keyboards r1.2 = Keyboard.keyboards p ++ [Keyboard.create w]).
Proof.
  simpl.
  pose proof (performAll_facts global before Keyboard.start) as [_ Hp].
  specialize (Hp start_consistent).
  set (p := Keyboard.performAll global before Keyboard.start) in *.
  destruct (getWindowKeyboard_facts global (Some w) p) as (Hc1 & Hg1 & Hk1 & Hnew).
  set (r1 := Keyboard.getWindowKeyboard global (Some w) p) in *.
  destruct (performAll_facts global between r1.2) as [Hg2 Hk2].
  set (p2 := Keyboard.performAll global between r1.2) in *.
  assert (Hc2 : Keyboard.cached p2 w r1.1) by (by eapply cached_grows).
  split; [|split; [|split; [|split]]].
  - by rewrite (getWindowKeyboard_cached global (Some w) p2 r1.1).
  - intros w' Hne.
    destruct (getWindowKeyboard_facts global (Some w') p2) as (Hc3 & Hg3 & Hk3 & _).
    eapply cached_distinct; [apply Hk3; auto | exact Hne | exact Hc3 |].
    by eapply cached_grows.
  - done.
  - exact Hc1.
  - intros Hnone. by apply Hnew.
Qed.

Lemma getWindowKeyboard_one_per_window_witness :
  let r1 := Keyboard.getWindowKeyboard 0 (Some 5) Keyboard.start in
  r1.1 = 0 ∧ Keyboard.keyboards r1.2 = [Keyboard.create 5]
  ∧ (Keyboard.getWindowKeyboard 0 (Some 5)
       (Keyboard.performAll 0 [Keyboard.GetWindowKeyboard None; Keyboard.GetUid 9]
          r1.2)).1 = 0.
Proof.
  destruct (getWindowKeyboard_one_per_window 0 []
              [Keyboard.GetWindowKeyboard None; Keyboard.GetUid 9] 5)
    as (Hsame & _ & _ & _ & Hnew).
  destruct Hnew as [H1 H2].
  - intros kb (uid & Hobj & _). vm_compute in Hobj. discriminate.
  - split; [exact H1|]. split; [exact H2|]. exact Hsame.
Defined.

(** ** Firing *)

(** C6. When the listeners of a descriptor are [L1], [L2], [L3] and [L2]
    throws, firing the descriptor invokes all three, in that order; what
    [L2] threw is reported between the invocations of [L2] and [L3]. *)
Theorem throwing_listener_does_not_stop_delivery {App : Type}
    (invoke : EventListener → Keyboard * App → (Keyboard * App) * Completion)
    (k : Keyboard) (app : App) (d : string) (L1 L2 L3 : EventListener) (e : Error) :
  Keyboard.listeners k d = [L1; L2; L3] →
  (∀ w, (invoke L2 w).2 = Throw e) →
  let obs := (Keyboard.keyPressed_ invoke (Keyboard.mkEvent d) (k, app)).2 in
  Keyboard.invocations obs = [(d, L1); (d, L2); (d, L3)]
  ∧ sublist [Keyboard.Invoked d L1; Keyboard.Invoked d L2; Keyboard.Reported e;
             Keyboard.Invoked d L3] obs.
Proof.
  intros Hl Hthrow. simpl. split.
  - rewrite keyPressed_invocations. simpl. by rewrite Hl.
  - unfold Keyboard.keyPressed_, Keyboard.emitEvent, Keyboard.listeners in *.
    simpl in *. rewrite Hl. simpl.
    destruct (invoke L1 (k, app)) as [w1 c1].
    specialize (Hthrow w1) as H2.
    destruct (invoke L2 w1) as [w2 c2]. simpl in H2. subst c2.
    destruct (invoke L3 w2) as [w3 c3]. simpl.
    apply sublist_cons, sublist_skip.
    destruct c1; simpl; [|apply sublist_cons];
      apply sublist_skip, sublist_skip, sublist_skip, sublist_nil_l.
Qed.

Lemma throwing_listener_does_not_stop_delivery_witness :
  let invoke := λ (l : EventListener) (w : Keyboard * unit),
                  (w, if decide (callback_ l = 2) then Throw "boom" else Normal) in
  let k := Keyboard.callAll (λ _, None)
             [Keyboard.AddShortcut "ctrl+g" 1 None; Keyboard.AddShortcut "ctrl+g" 2 None;
              Keyboard.AddShortcut "ctrl+g" 3 None] (Keyboard.create 0) in
  Keyboard.invocations (Keyboard.keyPressed_ invoke (Keyboard.mkEvent "ctrl+g") (k, tt)).2
  = [("ctrl+g", mkListener 1 None); ("ctrl+g", mkListener 2 None);
     ("ctrl+g", mkListener 3 None)].
Proof.
  simpl.
  apply (throwing_listener_does_not_stop_delivery
           (λ (l : EventListener) (w : Keyboard * unit),
              (w, if decide (callback_ l = 2) then Throw "boom" else Normal))
           _ tt "ctrl+g" (mkListener 1 None) (mkListener 2 None) (mkListener 3 None)
           "boom").
  - reflexivity.
  - intros w. reflexivity.
Defined.

(** C7. A key event with identifier [D] emits one event, named [D], and
    invokes the listeners bound to [D] entry by entry, each entry once, in
    the order of the list, whatever the listeners do. The list is in
    registration order: an [addShortcut] that returns puts its listener
    after those already there. *)
Theorem key_event_invokes_each_listener_once {App : Type}
    (invoke : EventListener → Keyboard * App → (Keyboard * App) * Completion)
    (e : Keyboard.KeyboardShortcutEvent) (k : Keyboard) (app : App) :
  let D := Keyboard.identifier e in
  let obs := (Keyboard.keyPressed_ invoke e (k, app)).2 in
  Keyboard.emissions obs = [D]
  ∧ Keyboard.invocations obs = map (pair D) (Keyboard.listeners k D)
  ∧ (∀ l, length (filter (λ i, i = (D, l)) (Keyboard.invocations obs))
          = count_listener l (Keyboard.listeners k D))
  ∧ (∀ parseError shortcut callback opt_scope,
       let r := Keyboard.addShortcut parseError shortcut callback opt_scope k in
       r.2 = Normal →
       Keyboard.listeners r.1 D
       = Keyboard.listeners k D
         ++ replicate (occurrences D (split_on bar shortcut))
              (mkListener callback opt_scope)).
Proof.
  simpl. split; [apply keyPressed_emissions|].
  split; [apply keyPressed_invocations|]. split.
  - intros l. rewrite keyPressed_invocations. apply count_invocations.
  - intros parseError shortcut callback opt_scope. apply addShortcut_listeners.
Qed.

Lemma key_event_invokes_each_listener_once_witness :
  Keyboard.listeners
    (Keyboard.addShortcut (λ _, None) "ctrl+h" 2 (Some 4)
       (Keyboard.addShortcut (λ _, None) "ctrl+h" 1 None (Keyboard.create 0)).1).1
    "ctrl+h"
  = [mkListener 1 None; mkListener 2 (Some 4)].
Proof.
  destruct (key_event_invokes_each_listener_once (λ _ (w : Keyboard * unit), (w, Normal))
              (Keyboard.mkEvent "ctrl+h")
              (Keyboard.addShortcut (λ _, None) "ctrl+h" 1 None (Keyboard.create 0)).1 tt)
    as (_ & _ & _ & Hadd).
  exact (Hadd (λ _, None) "ctrl+h" 2 (Some 4) eq_refl).
Defined.

Example split_two : split_on bar "ctrl+g|ctrl+h" = ["ctrl+g"; "ctrl+h"].
Proof. reflexivity. Qed.

Example split_empty : split_on bar EmptyString = [EmptyString].
Proof. reflexivity. Qed.

Example split_trailing : split_on bar "a|" = ["a"; EmptyString].
Proof. reflexivity. Qed.

(** * Further properties of the code *)

(** ** Segments *)

(** X1. The segments of a shortcut are never none, contain no ['|'], and
    joined by ['|'] give the shortcut back: [addShortcut] and
    [removeShortcut] run their loop at least once, on the empty segment for
    the empty string, and lose nothing of the string. *)
Theorem segments_roundtrip (sep : ascii) (s : string) :
  split_on sep s ≠ []
  ∧ Forall (λ d, contains_char sep d = false) (split_on sep s)
  ∧ join_with sep (split_on sep s) = s.
Proof.
  induction s as [|c s (Hne & Hall & Hjoin)]; simpl.
  - repeat split; [done | by repeat constructor].
  - destruct (Ascii.eqb c sep) eqn:Hc.
    + apply Ascii.eqb_eq in Hc as ->. split; [done|]. split; [by constructor|].
      destruct (split_on sep s) as [|seg rest]; [done|]. simpl in *. by rewrite Hjoin.
    + destruct (split_on sep s) as [|seg rest]; [done|].
      split; [done|]. apply Forall_cons in Hall as [Hseg Hrest]. split.
      * constructor; [|done]. simpl. by rewrite Hc.
      * destruct rest as [|seg' rest]; simpl in *; by rewrite <- Hjoin.
Qed.

(** ** Multi shortcuts, removed *)

(** X2. [removeShortcut] with descriptors joined by ['|'] does what calling
    [removeShortcut] for each descriptor in turn does, left to right. *)
Theorem removeShortcut_compound_is_sequence (k : Keyboard) (callback : Callback)
    (opt_scope : option ScopeObj) (ds : list string) :
  ds ≠ [] → Forall (λ d, contains_char bar d = false) ds →
  Keyboard.removeShortcut (join_with bar ds) callback opt_scope k
  = forEach (λ d, Keyboard.removeShortcut d callback opt_scope) ds k.
Proof.
  intros Hne Hds. unfold Keyboard.removeShortcut at 1.
  rewrite split_on_join by done. clear Hne. revert k.
  induction Hds as [|d ds Hd Hds IH]; intros k; [done|].
  simpl. unfold andThen, Keyboard.removeShortcut at 1.
  rewrite split_on_plain by done. simpl. rewrite andThen_return.
  destruct (Keyboard.removeShortcut_body callback opt_scope d k) as [k1 [|e]];
    [apply IH | done].
Qed.

Lemma removeShortcut_compound_is_sequence_witness :
  Keyboard.removeShortcut "ctrl+g|ctrl+h" 7 None (Keyboard.create 0)
  = forEach (λ d, Keyboard.removeShortcut d 7 None) ["ctrl+g"; "ctrl+h"]
      (Keyboard.create 0).
Proof.
  apply (removeShortcut_compound_is_sequence (Keyboard.create 0) 7 None
           ["ctrl+g"; "ctrl+h"]).
  - discriminate.
  - repeat constructor.
Defined.

(** ** What [addShortcut] leaves alone *)

(** X4. However it completes, [addShortcut] only appends: on every
    descriptor the old listeners stay in front, followed by at most one new
    entry per occurrence of the descriptor among the segments; nothing that
    was registered with the host stops being registered; and a descriptor
    that is not a segment keeps its listeners and its registration status. *)
Theorem addShortcut_only_appends (parseError : string → option Error)
    (shortcut : string) (callback : Callback) (opt_scope : option ScopeObj)
    (k : Keyboard) (d : string) :
  let k' := (Keyboard.addShortcut parseError shortcut callback opt_scope k).1 in
  (∃ n, (n ≤ occurrences d (split_on bar shortcut))%nat
        ∧ Keyboard.listeners k' d
          = Keyboard.listeners k d ++ replicate n (mkListener callback opt_scope))
  ∧ (Keyboard.registered k d → Keyboard.registered k' d)
  ∧ (d ∉ split_on bar shortcut →
     Keyboard.listeners k' d = Keyboard.listeners k d
     ∧ (Keyboard.registered k' d ↔ Keyboard.registered k d)).
Proof.
  simpl. unfold Keyboard.addShortcut. generalize (split_on bar shortcut) as segs.
  intros segs. revert k. induction segs as [|x segs IH]; intros k.
  - simpl. split; [exists 0; by rewrite app_nil_r | done].
  - simpl. unfold andThen.
    destruct (addShortcut_body_cases parseError callback opt_scope x k)
      as [[Hx Hr]|[(Hx & e & He & Hr)|(Hx & He & Hr)]]; simpl in Hr; rewrite Hr;
      clear Hr.
    + match goal with |- context [forEach _ segs ?k1] =>
        destruct (IH k1) as ((n & Hn & Hl) & Hreg & Hout) end.
      unfold Keyboard.listeners, Keyboard.registered, occurrences in *. simpl in *.
      rewrite filter_cons. destruct (decide (x = d)) as [->|Hne].
      * rewrite listenersOf_addListener_eq in *. split; [|split; [done|]].
        -- exists (S n). split; [simpl; lia|].
           by rewrite Hl, <- app_assoc.
        -- intros Hd. exfalso. apply Hd. by left.
      * rewrite listenersOf_addListener_ne in * by done. split; [by exists n|].
        split; [done|]. intros Hd. apply Hout. intros ?. apply Hd. by right.
    + simpl. split; [exists 0; split; [lia | by rewrite app_nil_r] | done].
    + match goal with |- context [forEach _ segs ?k1] =>
        destruct (IH k1) as ((n & Hn & Hl) & Hreg & Hout) end.
      unfold Keyboard.listeners, Keyboard.registered, occurrences in *. simpl in *.
      rewrite filter_cons. destruct (decide (x = d)) as [->|Hne].
      * rewrite listenersOf_addListener_eq in *. split; [|split].
        -- exists (S n). split; [simpl; lia|].
           by rewrite Hl, <- app_assoc.
        -- intros _. apply Hreg. set_solver.
        -- intros Hd. exfalso. apply Hd. by left.
      * rewrite listenersOf_addListener_ne in * by done. split; [by exists n|].
        split; [intros ?; apply Hreg; set_solver|].
        intros Hd. destruct Hout as [Hl' Hr']; [intros ?; apply Hd; by right|].
        split; [done|]. rewrite Hr'. set_solver.
Qed.

Lemma addShortcut_only_appends_witness :
  let k := (Keyboard.addShortcut (λ _, None) "ctrl+g" 7 None (Keyboard.create 0)).1 in
  let k' := (Keyboard.addShortcut (λ _, Some "rejected") "ctrl+h|ctrl+i" 8 None k).1 in
  Keyboard.registered k' "ctrl+g"
  ∧ Keyboard.listeners k' "ctrl+g" = Keyboard.listeners k "ctrl+g".
Proof.
  destruct (addShortcut_only_appends (λ _, Some "rejected") "ctrl+h|ctrl+i" 8 None
              (Keyboard.addShortcut (λ _, None) "ctrl+g" 7 None (Keyboard.create 0)).1
              "ctrl+g") as (_ & Hreg & Hout).
  split.
  - apply Hreg. vm_compute. set_solver.
  - apply Hout. vm_compute. intros H.
    apply elem_of_cons in H as [H|H]; [discriminate|].
    apply list_elem_of_singleton in H. discriminate.
Defined.

(** ** A rejected segment *)

Lemma forEach_append {A} (body : A → Method) xs ys k :
  forEach body (xs ++ ys) k = andThen (forEach body xs) (forEach body ys) k.
Proof.
  revert k. induction xs as [|x xs IH]; intros k; simpl.
  - unfold andThen. simpl. by destruct (forEach body ys k) as [? []].
  - unfold andThen in *. destruct (body x k) as [k' [|e]]; [apply IH | done].
Qed.

(** Segments that the host accepts, or that have a listener already, go
    through: the call returns, and the registered descriptors are the old
    ones and the segments that had no listener. *)
Lemma addShortcut_accepted parseError cb sc segs k :
  Forall (λ x, parseError x = None ∨ Keyboard.listeners k x ≠ []) segs →
  let r := forEach (Keyboard.addShortcut_body parseError cb sc) segs k in
  r.2 = Normal
  ∧ ∀ d, Keyboard.registered r.1 d
         ↔ Keyboard.registered k d ∨ (d ∈ segs ∧ Keyboard.listeners k d = []).
Proof.
  simpl. revert k. induction segs as [|x segs IH]; intros k Hall.
  - simpl. split; [done|]. intros d. split; [by left|].
    intros [?|[?%elem_of_nil _]]; done.
  - apply Forall_cons in Hall as [Hx Hall]. simpl. unfold andThen.
    assert (Hnext : ∀ m', eventTypes_ m' = addListener x cb sc (eventTypes_ k) →
      Forall (λ y, parseError y = None ∨ Keyboard.listeners m' y ≠ []) segs).
    { intros m' Hm. eapply Forall_impl; [exact Hall|]. simpl.
      intros y [?|Hy]; [by left|]. right. unfold Keyboard.listeners in *. rewrite Hm.
      destruct (decide (x = y)) as [->|Hne].
      - rewrite listenersOf_addListener_eq. intros H. by apply app_eq_nil in H as [_ ?].
      - by rewrite listenersOf_addListener_ne. }
    destruct (addShortcut_body_cases parseError cb sc x k)
      as [[Hl Hr]|[(Hl & e & He & Hr)|(Hl & He & Hr)]]; simpl in Hr; rewrite Hr;
      clear Hr.
    + match goal with |- context [forEach _ segs ?k1] =>
        destruct (IH k1 (Hnext k1 eq_refl)) as [Hn Hreg] end.
      split; [done|]. intros d. rewrite Hreg.
      unfold Keyboard.registered, Keyboard.listeners in *. simpl.
      destruct (decide (x = d)) as [->|Hne].
      * rewrite listenersOf_addListener_eq. split.
        -- intros [?|[_ H]]; [by left|]. by apply app_eq_nil in H as [_ ?].
        -- intros [?|[_ ?]]; [by left | done].
      * rewrite listenersOf_addListener_ne by done. split.
        -- intros [?|[? ?]]; [by left | right; split; [by right | done]].
        -- intros [?|[[?|?]%elem_of_cons ?]]; [by left | congruence | by right].
    + destruct Hx; congruence.
    + match goal with |- context [forEach _ segs ?k1] =>
        destruct (IH k1 (Hnext k1 eq_refl)) as [Hn Hreg] end.
      split; [done|]. intros d. rewrite Hreg.
      unfold Keyboard.registered, Keyboard.listeners in *. simpl.
      destruct (decide (x = d)) as [->|Hne].
      * rewrite listenersOf_addListener_eq. split.
        -- intros _. right. split; [by left | done].
        -- intros _. left. set_solver.
      * rewrite listenersOf_addListener_ne by done. split.
        -- intros [?|[? ?]]; [left; set_solver | right; split; [by right | done]].
        -- intros [?|[[?|?]%elem_of_cons ?]];
             [left; set_solver | congruence | by right].
Qed.

(** X3. A failing [addShortcut] is not rolled back. When the segments before
    [d] go through (the host accepts them, or they have a listener already)
    and the host rejects [d], which has no listener, the call throws the
    host's error; the segments before [d] keep the listener the call gave
    them and their registration, [d] and the segments after it get nothing,
    and the rejected registration is the last call the host received. *)
Theorem addShortcut_failure_keeps_earlier_segments
    (parseError : string → option Error) (pre post : list string) (d : string)
    (callback : Callback) (opt_scope : option ScopeObj) (k : Keyboard) (e : Error) :
  Forall (λ x, contains_char bar x = false) (pre ++ d :: post) →
  Forall (λ x, parseError x = None ∨ Keyboard.listeners k x ≠ []) pre →
  Keyboard.listeners k d = [] → parseError d = Some e →
  let r := Keyboard.addShortcut parseError (join_with bar (pre ++ d :: post))
             callback opt_scope k in
  r.2 = Throw e
  ∧ (∀ x, Keyboard.listeners r.1 x
          = Keyboard.listeners k x
            ++ replicate (occurrences x pre) (mkListener callback opt_scope))
  ∧ (∀ x, Keyboard.registered r.1 x
          ↔ Keyboard.registered k x ∨ (x ∈ pre ∧ Keyboard.listeners k x = []))
  ∧ ∃ log, calls (keyHandler_ r.1) = log ++ [RegisterShortcut d d].
Proof.
  intros Hbar Hpre Hd He. simpl. unfold Keyboard.addShortcut.
  rewrite split_on_join by (done || by destruct pre).
  rewrite forEach_append. unfold andThen.
  destruct (addShortcut_accepted parseError callback opt_scope pre k Hpre) as [Hn Hreg].
  pose proof (λ x, addShortcut_listeners parseError callback opt_scope pre k x Hn) as Hl.
  destruct (forEach _ pre k) as [k1 c]. simpl in *. subst c.
  assert (Hd1 : Keyboard.listeners k1 d = []).
  { rewrite Hl, Hd. simpl. rewrite occurrences_absent; [done|].
    intros Hin. apply (proj1 (Forall_forall _ _) Hpre) in Hin as [?|?]; congruence. }
  unfold andThen.
  destruct (addShortcut_body_cases parseError callback opt_scope d k1)
    as [[Hx Hr]|[(Hx & e' & He' & Hr)|(Hx & He' & Hr)]]; simpl in Hr; rewrite Hr;
    clear Hr; [done | | congruence].
  assert (e' = e) as -> by congruence. simpl.
  split; [done|]. split; [exact Hl|]. split; [exact Hreg|]. by eexists.
Qed.

Lemma addShortcut_failure_keeps_earlier_segments_witness :
  let reject := λ x : string, if decide (x = "bad") then Some "no such key" else None in
  let r := Keyboard.addShortcut reject "ctrl+g|bad|ctrl+h" 7 None (Keyboard.create 0) in
  r.2 = Throw "no such key"
  ∧ Keyboard.listeners r.1 "ctrl+g" = [mkListener 7 None]
  ∧ Keyboard.listeners r.1 "ctrl+h" = [].
Proof.
  pose (reject := λ x : string, if decide (x = "bad") then Some "no such key" else None).
  destruct (addShortcut_failure_keeps_earlier_segments reject ["ctrl+g"] ["ctrl+h"] "bad"
              7 None (Keyboard.create 0) "no such key") as (Ht & Hl & _).
  - repeat constructor.
  - repeat constructor.
  - reflexivity.
  - reflexivity.
  - split; [exact Ht|]. split; [exact (Hl "ctrl+g") | exact (Hl "ctrl+h")].
Defined.

(** ** What [removeShortcut] tells the host *)

Lemma removeShortcut_stays_empty cb sc segs k d :
  Keyboard.listeners k d = [] →
  Keyboard.listeners (forEach (Keyboard.removeShortcut_body cb sc) segs k).1 d = [].
Proof.
  intros Hd. destruct (removeShortcut_segments cb sc segs k d) as [-> _].
  rewrite Hd. by induction (occurrences d segs).
Qed.

(** X9. [removeShortcut] sends the host nothing but [unregisterShortcut]
    calls, each for a segment that has no listener once the call is over;
    what is registered afterwards is what was registered before, less those
    segments. In particular it calls the host not at all when every segment
    still has a listener, and it never registers anything. *)
Theorem removeShortcut_only_unregisters (shortcut : string) (callback : Callback)
    (opt_scope : option ScopeObj) (k : Keyboard) :
  let k' := (Keyboard.removeShortcut shortcut callback opt_scope k).1 in
  ∃ xs, calls (keyHandler_ k') = calls (keyHandler_ k) ++ map UnregisterShortcut xs
        ∧ (∀ x, x ∈ xs → x ∈ split_on bar shortcut ∧ Keyboard.listeners k' x = [])
        ∧ (∀ d, Keyboard.registered k' d ↔ Keyboard.registered k d ∧ d ∉ xs)
        ∧ ((∀ x, x ∈ split_on bar shortcut → Keyboard.listeners k' x ≠ []) →
           keyHandler_ k' = keyHandler_ k).
Proof.
  simpl. unfold Keyboard.removeShortcut. generalize (split_on bar shortcut) as segs.
  intros segs.
  cut (∃ xs, calls (keyHandler_ (forEach (Keyboard.removeShortcut_body callback
                                             opt_scope) segs k).1)
             = calls (keyHandler_ k) ++ map UnregisterShortcut xs
        ∧ (∀ x, x ∈ xs → x ∈ segs
                ∧ Keyboard.listeners (forEach (Keyboard.removeShortcut_body callback
                                                 opt_scope) segs k).1 x = [])
        ∧ shortcuts_ (keyHandler_ (forEach (Keyboard.removeShortcut_body callback
                                              opt_scope) segs k).1)
          = shortcuts_ (keyHandler_ k) ∖ list_to_set xs).
  { intros (xs & Hc & Hx & Hs). exists xs. split; [done|]. split; [done|]. split.
    - intros d. unfold Keyboard.registered. rewrite Hs. set_solver.
    - intros Hall. destruct xs as [|x xs].
      + destruct (keyHandler_ _) as [s' c'], (keyHandler_ k) as [s0 c0].
        simpl in *. rewrite app_nil_r in Hc. f_equal; [set_solver | done].
      + destruct (Hx x) as [Hin Hnil]; [by left|]. by destruct (Hall x Hin). }
  revert k. induction segs as [|x segs IH]; intros k.
  - exists []. simpl. rewrite app_nil_r. split; [done|].
    split; [by intros ? ?%elem_of_nil | set_solver].
  - simpl. unfold andThen.
    destruct (removeShortcut_body_cases callback opt_scope x k) as [[Hx Hr]|[Hx Hr]];
      simpl in Hr; rewrite Hr; clear Hr;
      match goal with |- context [forEach _ segs ?k1] =>
        set (k1' := k1) in *; destruct (IH k1') as (xs & Hc & Hin & Hs) end.
    + exists xs. split; [done|]. split; [|done].
      intros y Hy. destruct (Hin y Hy). split; [by right | done].
    + exists (x :: xs). simpl in *. rewrite Hc, <- app_assoc. split; [done|]. split.
      * intros y [->|Hy]%elem_of_cons.
        -- split; [by left|]. by apply removeShortcut_stays_empty.
        -- destruct (Hin y Hy). split; [by right | done].
      * rewrite Hs. set_solver.
Qed.

Lemma removeShortcut_only_unregisters_witness :
  let k := Keyboard.callAll (λ _, None)
             [Keyboard.AddShortcut "ctrl+g" 7 None; Keyboard.AddShortcut "ctrl+g" 8 None]
             (Keyboard.create 0) in
  keyHandler_ (Keyboard.removeShortcut "ctrl+g" 7 None k).1 = keyHandler_ k.
Proof.
  destruct (removeShortcut_only_unregisters "ctrl+g" 7 None
              (Keyboard.callAll (λ _, None)
                 [Keyboard.AddShortcut "ctrl+g" 7 None;
                  Keyboard.AddShortcut "ctrl+g" 8 None] (Keyboard.create 0)))
    as (xs & _ & _ & _ & Hquiet).
  apply Hquiet. intros x Hx. vm_compute in Hx.
  apply list_elem_of_singleton in Hx as ->. by vm_compute.
Defined.

(** ** The host's record *)

Lemma replay_snoc parseError cs c active :
  replay parseError (cs ++ [c]) active
  = match replay parseError cs active with
    | Some active' => replay parseError [c] active'
    | None => None
    end.
Proof.
  revert active. induction cs as [|c0 cs IH]; intros active; simpl.
  - by destruct c; simpl; repeat case_decide.
  - destruct c0; [case_decide; [done|] |]; apply IH.
Qed.

(** X5. After any sequence of [addShortcut] and [removeShortcut] calls on a
    new keyboard, the record of calls the host received replays without
    conflict, and to the set of descriptors the host intercepts: the code
    never asks the host to register a descriptor that is registered. *)
Theorem host_never_registers_twice (parseError : string → option Error)
    (cs : list Keyboard.Call) (targetWindow : Window) :
  let k := Keyboard.callAll parseError cs (Keyboard.create targetWindow) in
  replay parseError (calls (keyHandler_ k)) ∅ = Some (shortcuts_ (keyHandler_ k)).
Proof.
  simpl.
  set (J := λ k : Keyboard,
    Keyboard.I1 k
    ∧ replay parseError (calls (keyHandler_ k)) ∅ = Some (shortcuts_ (keyHandler_ k))).
  cut (J (Keyboard.callAll parseError cs (Keyboard.create targetWindow)));
    [by intros [_ ?]|].
  assert (Hstart : J (Keyboard.create targetWindow)) by (split; [apply create_I1 | done]).
  revert Hstart. generalize (Keyboard.create targetWindow) as k.
  induction cs as [|c cs IH]; intros k Hk; [done|].
  simpl. apply IH. clear IH. destruct c as [shortcut cb sc|shortcut cb sc]; simpl.
  - unfold Keyboard.addShortcut. apply (forEach_preserves J); [|done].
    clear k Hk. intros x k [HI HJ].
    split; [by apply addShortcut_body_I1|].
    destruct (addShortcut_body_cases parseError cb sc x k)
      as [[Hx ->]|[(Hx & e & He & ->)|(Hx & He & ->)]]; simpl; [done | |];
      rewrite replay_snoc, HJ; simpl;
      (rewrite decide_False; [by rewrite He|]); by intros ?%HI.
  - unfold Keyboard.removeShortcut. apply (forEach_preserves J); [|done].
    clear k Hk. intros x k [HI HJ].
    split; [by apply removeShortcut_body_I1|].
    destruct (removeShortcut_body_cases cb sc x k) as [[Hx ->]|[Hx ->]]; simpl;
      [done|]. by rewrite replay_snoc, HJ.
Qed.

(** ** Adding and taking back *)

Lemma remove_first_middle l (ls rs : list EventListener) :
  l ∉ ls → remove_first l (ls ++ l :: rs) = ls ++ rs.
Proof.
  induction ls as [|y ls IH]; simpl.
  - intros _. by rewrite decide_True.
  - intros [Hne Hl]%not_elem_of_cons. rewrite decide_False by done. by rewrite IH.
Qed.

Lemma strip_appended l n (ls : list EventListener) :
  l ∉ ls → strip (replicate n l) (ls ++ replicate n l) = ls.
Proof.
  intros Hl. induction n as [|n IH]; simpl; [by rewrite app_nil_r|].
  change (strip (l :: replicate n l) ?x) with (strip (replicate n l) (remove_first l x)).
  by rewrite remove_first_middle.
Qed.

Lemma same_counts_nil (ls1 ls2 : list EventListener) :
  (∀ x, count_listener x ls1 = count_listener x ls2) → ls1 = [] ↔ ls2 = [].
Proof.
  assert (H : ∀ a b : list EventListener,
    (∀ x, count_listener x a = count_listener x b) → a = [] → b = []).
  { intros a [|y b] Hc ->; [done|]. specialize (Hc y).
    unfold count_listener in Hc. rewrite filter_cons_True in Hc by done. done. }
  intros Hc. split; apply H; [done | intros x; by rewrite Hc].
Qed.

(** X6. Taking back what was added. After any calls on a new keyboard, an
    [addShortcut] that returns followed by [removeShortcut] with the same
    arguments leaves every descriptor with each listener as many times as
    before and registered with the host exactly if it was before; the
    listener lists are the very same where the listener was not bound
    before. *)
Theorem add_then_remove_restores (parseError : string → option Error)
    (cs : list Keyboard.Call) (targetWindow : Window) (shortcut : string)
    (callback : Callback) (opt_scope : option ScopeObj) (d : string) :
  let k := Keyboard.callAll parseError cs (Keyboard.create targetWindow) in
  let r := Keyboard.addShortcut parseError shortcut callback opt_scope k in
  let k' := (Keyboard.removeShortcut shortcut callback opt_scope r.1).1 in
  r.2 = Normal →
  (∀ l, count_listener l (Keyboard.listeners k' d)
        = count_listener l (Keyboard.listeners k d))
  ∧ (Keyboard.registered k' d ↔ Keyboard.registered k d)
  ∧ (mkListener callback opt_scope ∉ Keyboard.listeners k d →
     Keyboard.listeners k' d = Keyboard.listeners k d).
Proof.
  simpl. intros Hn.
  pose proof (callAll_I1 parseError cs _ (create_I1 targetWindow)) as HI.
  set (k := Keyboard.callAll parseError cs (Keyboard.create targetWindow)) in *.
  pose proof (call_I1 parseError (Keyboard.AddShortcut shortcut callback opt_scope)
                k HI) as HI1.
  unfold Keyboard.call in HI1.
  pose proof (forEach_preserves Keyboard.I1
                (Keyboard.removeShortcut_body callback opt_scope)
                (split_on bar shortcut)
                (λ x k0, removeShortcut_body_I1 callback opt_scope x k0) _ HI1) as HI2.
  unfold Keyboard.addShortcut, Keyboard.removeShortcut in *.
  destruct (removeShortcut_segments callback opt_scope (split_on bar shortcut)
              (forEach (Keyboard.addShortcut_body parseError callback opt_scope)
                 (split_on bar shortcut) k).1 d) as [Hl _].
  rewrite addShortcut_listeners in Hl by done.
  assert (Hcount : ∀ l, count_listener l (Keyboard.listeners
              (forEach (Keyboard.removeShortcut_body callback opt_scope)
                 (split_on bar shortcut)
                 (forEach (Keyboard.addShortcut_body parseError callback opt_scope)
                    (split_on bar shortcut) k).1).1 d)
            = count_listener l (Keyboard.listeners k d)).
  { intros l. rewrite Hl, count_strip, count_listener_app. lia. }
  split; [done|]. split.
  - etrans; [apply (HI2 d)|]. etrans; [|symmetry; apply (HI d)].
    apply not_iff_compat. by apply same_counts_nil.
  - intros Habs. rewrite Hl. by apply strip_appended.
Qed.

Lemma add_then_remove_restores_witness :
  let k := Keyboard.callAll (λ _, None) [Keyboard.AddShortcut "ctrl+g" 7 None]
             (Keyboard.create 0) in
  let r := Keyboard.addShortcut (λ _, None) "ctrl+g|ctrl+h" 8 None k in
  let k' := (Keyboard.removeShortcut "ctrl+g|ctrl+h" 8 None r.1).1 in
  (Keyboard.registered k' "ctrl+h" ↔ Keyboard.registered k "ctrl+h")
  ∧ Keyboard.listeners k' "ctrl+g" = Keyboard.listeners k "ctrl+g".
Proof.
  split.
  - apply (add_then_remove_restores (λ _, None) [Keyboard.AddShortcut "ctrl+g" 7 None]
             0 "ctrl+g|ctrl+h" 8 None "ctrl+h" eq_refl).
  - apply (add_then_remove_restores (λ _, None) [Keyboard.AddShortcut "ctrl+g" 7 None]
             0 "ctrl+g|ctrl+h" 8 None "ctrl+g" eq_refl).
    vm_compute. intros H. apply list_elem_of_singleton in H. discriminate.
Defined.

(** ** Scopes *)

(** What a run of scope additions that returns has recorded and added. *)
Lemma addEach_normal parseError ts s k d :
  (addEach parseError ts (s, k)).2 = Normal →
  listeners_ (addEach parseError ts (s, k)).1.1 = listeners_ s ++ ts
  ∧ Keyboard.listeners (addEach parseError ts (s, k)).1.2 d
    = Keyboard.listeners k d ++ KeyboardScope.removed d ts.
Proof.
  revert s k. induction ts as [|[[sh cb] sc] ts IH]; intros s k; simpl.
  - intros _. by rewrite !app_nil_r.
  - unfold KeyboardScope.addShortcut.
    destruct (Keyboard.addShortcut parseError sh cb sc k) as [k1 [|e]] eqn:Hadd;
      simpl; [|done].
    intros Hn. destruct (IH _ k1 Hn) as [-> ->]. simpl. rewrite <- !app_assoc.
    split; [done|].
    pose proof (addShortcut_listeners parseError cb sc (split_on bar sh) k d) as Hl.
    unfold Keyboard.addShortcut in Hadd. rewrite Hadd in Hl. simpl in Hl.
    by rewrite Hl, <- app_assoc.
Qed.

Lemma addEach_I1 parseError ts s k :
  Keyboard.I1 k → Keyboard.I1 (addEach parseError ts (s, k)).1.2.
Proof.
  revert s k. induction ts as [|[[sh cb] sc] ts IH]; intros s k Hk; [done|].
  simpl. unfold KeyboardScope.addShortcut.
  pose proof (call_I1 parseError (Keyboard.AddShortcut sh cb sc) k Hk) as HI.
  simpl in HI.
  destruct (Keyboard.addShortcut parseError sh cb sc k) as [k1 [|e]];
    [by apply IH | done].
Qed.

Lemma disposeInternal_I1 s k :
  Keyboard.I1 k → Keyboard.I1 (KeyboardScope.disposeInternal (s, k)).1.2.
Proof.
  intros Hk. unfold KeyboardScope.disposeInternal.
  pose proof (forEach_preserves Keyboard.I1
    (λ listener : ListenerTuple,
       Keyboard.removeShortcut listener.1.1 listener.1.2 listener.2)
    (listeners_ s)) as Hp.
  destruct (forEach _ (listeners_ s) k) as [k' c] eqn:Hr. simpl.
  specialize (Hp (λ t k0 Hk0, forEach_preserves Keyboard.I1
                    (Keyboard.removeShortcut_body t.1.2 t.2) (split_on bar t.1.1)
                    (λ x k1, removeShortcut_body_I1 t.1.2 t.2 x k1) k0 Hk0) k Hk).
  by rewrite Hr in Hp.
Qed.

Lemma disposeInternal_strips s k d :
  Keyboard.listeners (KeyboardScope.disposeInternal (s, k)).1.2 d
  = strip (KeyboardScope.removed d (listeners_ s)) (Keyboard.listeners k d)
  ∧ (KeyboardScope.disposeInternal (s, k)).2 = Normal.
Proof.
  unfold KeyboardScope.disposeInternal.
  destruct (disposeInternal_listeners (listeners_ s) k d) as [Hl Hn].
  by destruct (forEach _ (listeners_ s) k) as [k' c].
Qed.

(** X7. A scope gives back what it took. After any calls on a new keyboard,
    when a caller adds tuples through a new scope, every addition returns,
    and the scope is disposed, every descriptor has each listener as many
    times as before the scope and is registered with the host exactly if it
    was before. The scope's record is the tuples, in the order added. *)
Theorem scope_dispose_restores (parseError : string → option Error)
    (cs : list Keyboard.Call) (targetWindow : Window) (ts : list ListenerTuple)
    (d : string) :
  let k := Keyboard.callAll parseError cs (Keyboard.create targetWindow) in
  let r := addEach parseError ts (KeyboardScope.create, k) in
  let k' := (KeyboardScope.disposeInternal r.1).1.2 in
  r.2 = Normal →
  listeners_ r.1.1 = ts
  ∧ (∀ l, count_listener l (Keyboard.listeners k' d)
          = count_listener l (Keyboard.listeners k d))
  ∧ (Keyboard.registered k' d ↔ Keyboard.registered k d).
Proof.
  simpl. intros Hn.
  pose proof (callAll_I1 parseError cs _ (create_I1 targetWindow)) as HI.
  set (k := Keyboard.callAll parseError cs (Keyboard.create targetWindow)) in *.
  destruct (addEach_normal parseError ts KeyboardScope.create k d Hn) as [Hrec Hl].
  pose proof (addEach_I1 parseError ts KeyboardScope.create k HI) as HI1.
  destruct (addEach parseError ts (KeyboardScope.create, k)) as [[s1 k1] c].
  simpl in *. subst c.
  pose proof (disposeInternal_I1 s1 k1 HI1) as HI2.
  destruct (disposeInternal_strips s1 k1 d) as [Hd _].
  split; [done|].
  assert (Hcount : ∀ l, count_listener l
            (Keyboard.listeners (KeyboardScope.disposeInternal (s1, k1)).1.2 d)
          = count_listener l (Keyboard.listeners k d)).
  { intros l. rewrite Hd, count_strip, Hl, Hrec, count_listener_app. lia. }
  split; [done|].
  etrans; [apply (HI2 d)|]. etrans; [|symmetry; apply (HI d)].
  apply not_iff_compat. by apply same_counts_nil.
Qed.

Lemma scope_dispose_restores_witness :
  let k := Keyboard.callAll (λ _, None) [Keyboard.AddShortcut "ctrl+g" 7 None]
             (Keyboard.create 0) in
  let r := addEach (λ _, None) [("ctrl+g|ctrl+h", 8, None); ("ctrl+i", 9, Some 3)]
             (KeyboardScope.create, k) in
  let k' := (KeyboardScope.disposeInternal r.1).1.2 in
  listeners_ r.1.1 = [("ctrl+g|ctrl+h", 8, None); ("ctrl+i", 9, Some 3)]
  ∧ (Keyboard.registered k' "ctrl+h" ↔ Keyboard.registered k "ctrl+h").
Proof.
  destruct (scope_dispose_restores (λ _, None) [Keyboard.AddShortcut "ctrl+g" 7 None] 0
              [("ctrl+g|ctrl+h", 8, None); ("ctrl+i", 9, Some 3)] "ctrl+h" eq_refl)
    as (Hrec & _ & Hreg).
  split; [exact Hrec | exact Hreg].
Defined.


(** ** The keyboard of a window *)

Lemma madeForWindow_start : madeForWindow Keyboard.start.
Proof.
  intros obj kb (uid & Hobj & _). unfold Keyboard.start in Hobj. simpl in Hobj.
  by rewrite lookup_empty in Hobj.
Qed.

Lemma madeForWindow_getUid obj p :
  Keyboard.consistent p → madeForWindow p → madeForWindow (Keyboard.getUid obj p).2.
Proof.
  intros (_ & _ & Halloc & _) Hm. unfold Keyboard.getUid.
  destruct (Keyboard.uidProperty_ p !! obj) as [uid|] eqn:Hobj; [done|].
  intros obj' kb (uid' & Hobj' & Hkb). simpl in *.
  destruct (decide (obj = obj')) as [->|Hne].
  - rewrite lookup_insert_eq in Hobj'. injection Hobj' as <-.
    apply Halloc in Hkb. lia.
  - rewrite lookup_insert_ne in Hobj' by done. apply Hm. by exists uid'.
Qed.

Lemma madeForWindow_newKeyboard w p :
  madeForWindow p → madeForWindow (Keyboard.newKeyboard w p).2.
Proof.
  intros Hm obj kb Hc. destruct (Hm obj kb Hc) as (K & HK & Ht).
  exists K. split; [|done]. simpl. by apply lookup_app_l_Some.
Qed.

Section KeyboardOfWindow.

Variable global : Window.

Lemma madeForWindow_getWindowKeyboard opt_window p :
  Keyboard.consistent p → madeForWindow p →
  madeForWindow (Keyboard.getWindowKeyboard global opt_window p).2
  ∧ (Keyboard.keyboards (Keyboard.getWindowKeyboard global opt_window p).2
     = Keyboard.keyboards p
     ∨ Keyboard.keyboards (Keyboard.getWindowKeyboard global opt_window p).2
       = Keyboard.keyboards p ++ [Keyboard.create (default global opt_window)]).
Proof.
  intros Hp Hm. unfold Keyboard.getWindowKeyboard.
  pose proof (madeForWindow_getUid (default global opt_window) p Hp Hm) as Hm1.
  destruct (getUid_facts (default global opt_window) p)
    as (Hu & Hg & Hk & Hi & Hfresh & Hc). specialize (Hc Hp).
  destruct (Keyboard.getUid (default global opt_window) p) as [uid p1]. simpl in *.
  destruct (Keyboard.keyboardInstances_ p1 !! uid) as [kb|] eqn:Hkb; simpl.
  - split; [done | by left].
  - split; [|right; by rewrite Hk].
    intros obj kb (uid' & Hobj & Hkb'). simpl in *.
    destruct (decide (uid' = uid)) as [->|Hne].
    + rewrite lookup_insert_eq in Hkb'. injection Hkb' as <-.
      destruct Hc as (_ & Hinj & _). pose proof (Hinj _ _ _ Hobj Hu) as ->.
      exists (Keyboard.create (default global opt_window)). split; [|done].
      by rewrite lookup_app_r, Nat.sub_diag.
    + rewrite lookup_insert_ne in Hkb' by done.
      destruct (Hm1 obj kb) as (K & HK & Ht); [by exists uid'|].
      exists K. split; [by apply lookup_app_l_Some | done].
Qed.

Lemma madeForWindow_performAll acts p :
  Keyboard.consistent p → madeForWindow p →
  madeForWindow (Keyboard.performAll global acts p).
Proof.
  revert p. induction acts as [|a acts IH]; intros p Hp Hm; [done|].
  simpl. destruct (perform_facts global a p) as [_ Hc]. apply IH; [by apply Hc|].
  destruct a as [opt_window|obj|w]; simpl.
  - by apply madeForWindow_getWindowKeyboard.
  - by apply madeForWindow_getUid.
  - by apply madeForWindow_newKeyboard.
Qed.

End KeyboardOfWindow.

(** X8. In a process that ran any of this code, the keyboard a lookup
    returns is an allocated keyboard that was constructed for the window
    looked up ([goog.global] when none is given). The lookup allocates at
    most that one keyboard and leaves the allocated ones as they are, and
    looking the window up again right away returns the same keyboard and
    changes nothing. *)
Theorem getWindowKeyboard_returns_keyboard_of_window (global : Window)
    (before : list Keyboard.Action) (opt_window : option Window) :
  let w := default global opt_window in
  let p := Keyboard.performAll global before Keyboard.start in
  let r := Keyboard.getWindowKeyboard global opt_window p in
  (∃ K, Keyboard.keyboards r.2 !! r.1 = Some K ∧ targetWindow_ K = w)
  ∧ (Keyboard.keyboards r.2 = Keyboard.keyboards p
     ∨ Keyboard.keyboards r.2 = Keyboard.keyboards p ++ [Keyboard.create w])
  ∧ Keyboard.getWindowKeyboard global opt_window r.2 = r.
Proof.
  simpl.
  destruct (performAll_facts global before Keyboard.start) as [_ Hp].
  specialize (Hp start_consistent).
  pose proof (madeForWindow_performAll global before Keyboard.start start_consistent
                madeForWindow_start) as Hm.
  set (p := Keyboard.performAll global before Keyboard.start) in *.
  destruct (madeForWindow_getWindowKeyboard global opt_window p Hp Hm) as [Hm1 Hgrow].
  destruct (getWindowKeyboard_facts global opt_window p) as (Hc & _).
  split; [by apply Hm1|]. split; [done|].
  rewrite (getWindowKeyboard_cached global opt_window _ _ Hc).
  by destruct (Keyboard.getWindowKeyboard global opt_window p).
Qed.
